(** * Friendship Court: the judgment oracle of [app.py]

    A shallow embedding of the three functions of [app.py] that decide a
    verdict, [get_judgment_mock], [get_judgment_llm] and [get_judgment],
    together with the pieces of the Python runtime they rely on:

    - [str] values as sequences of code points, [len] and [str.strip];
    - binary64 floats through the Standard Library's [SpecFloat], with
      Python's [int / int], [float * int] and [round(float)];
    - the values [json.loads] can return, with [int(...)], [bool(...)],
      [dict.get] and the [.strip()] method call on them;
    - exceptions as an error monad, and the outbound call of the chat
      service as an event of a trace. *)

From Stdlib Require Import ZArith Lia Bool List String Ascii.
From Stdlib Require Import Floats.SpecFloat.
From stdpp Require Import base option list gmap.

Set Warnings "-register-all".
Local Open Scope Z_scope.

(** ** Python runtime *)

Module Py.

(** The exception classes that the body of [get_judgment_llm] can raise.
    All of them derive from [Exception]. *)
Inductive exn : Type :=
| ZeroDivisionError
| OverflowError
| ValueError
| TypeError
| AttributeError
| IndexError
| JSONDecodeError
| APIConnectionError
| AuthenticationError
| APIStatusError (status : Z).

Inductive result (A : Type) : Type :=
| Ok (a : A)
| Raise (e : exn).
Arguments Ok {A} a.
Arguments Raise {A} e.

#[export] Instance result_ret : MRet result := fun A a => Ok a.
#[export] Instance result_bind : MBind result := fun A B f m =>
  match m with
  | Ok a => f a
  | Raise e => Raise e
  end.
#[export] Instance result_fmap : FMap result := fun A B f m =>
  match m with
  | Ok a => Ok (f a)
  | Raise e => Raise e
  end.

(** *** Strings

    A Python [str] is a sequence of Unicode code points. *)
Definition str : Type := list N.

Definition len (s : str) : Z := Z.of_nat (length s).

(** Literals are written as UTF-8 text and decoded to code points. *)
Fixpoint utf8_decode_aux (s : string) (acc : N) (pending : nat) : str :=
  match s with
  | EmptyString => []
  | String c s' =>
      let b := N_of_ascii c in
      match pending with
      | O =>
          if (b <? 128)%N then b :: utf8_decode_aux s' 0%N O
          else if (b <? 224)%N then utf8_decode_aux s' (b - 192)%N 1%nat
          else if (b <? 240)%N then utf8_decode_aux s' (b - 224)%N 2%nat
          else utf8_decode_aux s' (b - 240)%N 3%nat
      | S O => (acc * 64 + (b - 128))%N :: utf8_decode_aux s' 0%N O
      | S k => utf8_decode_aux s' (acc * 64 + (b - 128))%N k
      end
  end.

Definition lit (s : string) : str := utf8_decode_aux s 0%N O.

(** [str.isspace] on one character, as [str.strip()] uses it. *)
Definition isspace (c : N) : bool :=
  ((9 <=? c) && (c <=? 13) || (28 <=? c) && (c <=? 32)
   || (c =? 133) || (c =? 160) || (c =? 5760)
   || (8192 <=? c) && (c <=? 8202)
   || (c =? 8232) || (c =? 8233) || (c =? 8239) || (c =? 8287)
   || (c =? 12288))%N.

Fixpoint lstrip (s : str) : str :=
  match s with
  | c :: s' => if isspace c then lstrip s' else s
  | [] => []
  end.

Definition rstrip (s : str) : str := rev (lstrip (rev s)).

(** [s.strip()] *)
Definition strip (s : str) : str := rstrip (lstrip s).

(** *** Floats

    A Python [float] is an IEEE 754 binary64 number. *)
Definition prec : Z := 53.
Definition emax : Z := 1024.

Definition float : Type := spec_float.

(** An integer as an exact, not yet rounded, operand. *)
Definition Z2SF (z : Z) : spec_float :=
  match z with
  | Z0 => S754_zero false
  | Zpos p => S754_finite false p 0
  | Zneg p => S754_finite true p 0
  end.

(** [a / b] on two [int]: the correctly rounded quotient. *)
Definition int_truediv (a b : Z) : result float :=
  if b =? 0 then Raise ZeroDivisionError
  else
    match SFdiv prec emax (Z2SF a) (Z2SF b) with
    | S754_infinity _ => Raise OverflowError
    | q => Ok q
    end.

(** [float(n)], as the mixed operations use it on an [int] operand. *)
Definition float_of_int (n : Z) : result float :=
  match binary_normalize prec emax n 0 false with
  | S754_infinity _ => Raise OverflowError
  | f => Ok f
  end.

(** [x * n] with a [float] on the left and an [int] on the right. *)
Definition float_mul_int (x : float) (n : Z) : result float :=
  y ← float_of_int n; Ok (SFmul prec emax x y).

(** The integer nearest to [p / d], ties going to the even one
    ([0 <= p], [0 < d]). *)
Definition rne (p d : Z) : Z :=
  let q := p / d in
  let r := p mod d in
  if 2 * r <? d then q
  else if d <? 2 * r then q + 1
  else if Z.even q then q else q + 1.

(** [round(x)] with one argument: an [int], ties to even. *)
Definition py_round (x : float) : result Z :=
  match x with
  | S754_zero _ => Ok 0
  | S754_infinity _ => Raise OverflowError
  | S754_nan => Raise ValueError
  | S754_finite s m e =>
      Ok (cond_Zopp s
            (if 0 <=? e then Zpos m * 2 ^ e else rne (Zpos m) (2 ^ (- e))))
  end.

(** [int(x)] on a [float]: truncation towards zero. *)
Definition int_of_float (x : float) : result Z :=
  match x with
  | S754_zero _ => Ok 0
  | S754_infinity _ => Raise OverflowError
  | S754_nan => Raise ValueError
  | S754_finite s m e =>
      Ok (cond_Zopp s
            (if 0 <=? e then Zpos m * 2 ^ e else Zpos m / 2 ^ (- e)))
  end.

(** *** Values returned by [json.loads] *)
Inductive json : Type :=
| JNull
| JBool (b : bool)
| JInt (z : Z)
| JFloat (f : float)
| JStr (s : str)
| JList (l : list json)
| JDict (d : gmap str json).

(** What [d.get(key, dflt)] reads in a [dict]. *)
Definition field (d : gmap str json) (key : str) (dflt : json) : json :=
  default dflt (d !! key).

(** [data.get(key, dflt)]: only a [dict] has the method. *)
Definition get (data : json) (key : str) (dflt : json) : result json :=
  match data with
  | JDict d => Ok (field d key dflt)
  | _ => Raise AttributeError
  end.

(** [v.strip()]: only a [str] has the method. *)
Definition strip_method (v : json) : result str :=
  match v with
  | JStr s => Ok (strip s)
  | _ => Raise AttributeError
  end.

(** [bool(v)] *)
Definition py_bool (v : json) : bool :=
  match v with
  | JNull => false
  | JBool b => b
  | JInt z => negb (z =? 0)
  | JFloat (S754_zero _) => false
  | JFloat _ => true
  | JStr s => negb (bool_decide (s = []))
  | JList l => match l with [] => false | _ => true end
  | JDict d => negb (bool_decide (d = ∅))
  end.

(** [int(v)].  The grammar that [int] accepts on a [str] belongs to the
    interpreter; it is the parameter [int_of_str]. *)
Definition py_int (int_of_str : str -> result Z) (v : json) : result Z :=
  match v with
  | JInt z => Ok z
  | JBool b => Ok (if b then 1 else 0)
  | JFloat f => int_of_float f
  | JStr s => int_of_str s
  | JNull | JList _ | JDict _ => Raise TypeError
  end.

End Py.

Import Py.

(** ** The program *)

(** [class Judgment] *)
Record Judgment : Type := {
  neutral_summary : str;
  a_responsibility : Z;
  b_responsibility : Z;
  advice_a : str;
  advice_b : str;
  apology_template : str;
  safety_flag : bool;
  safety_message : str
}.

(** [int(round(part / total * 100))], the expression both strategies
    share; [int] of an [int] is the identity. *)
Definition share (part total : Z) : result Z :=
  q ← int_truediv part total;
  p ← float_mul_int q 100;
  py_round p.

(** The four fixed texts of the fallback. *)
Definition mock_neutral_summary : str := Eval vm_compute in lit
  "From both perspectives, this looks like a mix of unmet expectations and communication gaps rather than one person being purely right or wrong. Both people had reasons for what they did, but those reasons weren’t clearly shared.".

Definition mock_advice_a : str := Eval vm_compute in lit
  "Try to name what you needed earlier and out loud. Instead of waiting and hoping they guess, say something like: “This is important to me because…”. That gives them a fair chance to respond.".

Definition mock_advice_b : str := Eval vm_compute in lit
  "Acknowledge the impact of your actions, even if you didn’t mean harm. You can say: “I see how that hurt you, even though I didn’t intend it.” Then share a bit of your own constraints calmly.".

Definition mock_apology_template : str := Eval vm_compute in lit
  "Hey, I’ve been thinking about what happened. I’m sorry for the part I played in how things went. I didn’t mean to make you feel that way. Next time, I’ll try to be more clear about what I’m thinking and I’ll check in with you sooner instead of letting the tension build up.".

(** [get_judgment_mock] *)
Definition get_judgment_mock (story_a story_b tone : str) : result Judgment :=
  let len_a := len story_a in
  let len_b := len story_b in
  let total := Z.max (len_a + len_b) 1 in
  a_share ← share len_a total;
  let b_share := 100 - a_share in
  Ok {| neutral_summary := mock_neutral_summary;
        a_responsibility := a_share;
        b_responsibility := b_share;
        advice_a := mock_advice_a;
        advice_b := mock_advice_b;
        apology_template := mock_apology_template;
        safety_flag := false;
        safety_message := [] |}.

(** The keys of the reply. *)
Definition k_neutral_summary : str := Eval vm_compute in lit "neutral_summary".
Definition k_a_responsibility : str := Eval vm_compute in lit "a_responsibility".
Definition k_b_responsibility : str := Eval vm_compute in lit "b_responsibility".
Definition k_advice_a : str := Eval vm_compute in lit "advice_a".
Definition k_advice_b : str := Eval vm_compute in lit "advice_b".
Definition k_apology_template : str := Eval vm_compute in lit "apology_template".
Definition k_safety_flag : str := Eval vm_compute in lit "safety_flag".
Definition k_safety_message : str := Eval vm_compute in lit "safety_message".

(** What the process talks to.  A request to the chat service is fixed by
    the three arguments: the model, the temperature, the response format
    and the system prompt are constants, and the user prompt is a template
    around [tone], [story_a] and [story_b]. *)
Record chat_request : Type := {
  req_story_a : str;
  req_story_b : str;
  req_tone : str
}.

(** A reply of the service: [content] of the message of each choice,
    [None] for a missing content. *)
Definition completion : Type := list (option str).

Record env : Type := {
  (** [client.chat.completions.create]; the second argument counts the
      requests sent before this one. *)
  chat_create : chat_request -> nat -> result completion;
  (** [json.loads] *)
  json_loads : str -> result json;
  (** [int] on a [str] *)
  int_of_str : str -> result Z
}.

(** What the process does that can be seen from outside. *)
Inductive event : Type :=
| SentRequest (r : chat_request)
| PrintedRaw (raw_text : str)
| PrintedFailure (e : exn).

Definition trace : Type := list event.

Fixpoint requests_sent (t : trace) : nat :=
  match t with
  | [] => O
  | SentRequest _ :: t' => S (requests_sent t')
  | _ :: t' => requests_sent t'
  end.

(** Computations that extend the trace and return or raise. *)
Definition M (A : Type) : Type := trace -> result A * trace.

#[export] Instance M_ret : MRet M := fun A a t => (Ok a, t).
#[export] Instance M_bind : MBind M := fun A B f m t =>
  match m t with
  | (Ok a, t') => f a t'
  | (Raise e, t') => (Raise e, t')
  end.

Definition lift {A} (r : result A) : M A := fun t => (r, t).

Definition emit (ev : event) : M unit := fun t => (Ok tt, t ++ [ev]).

(** [try: body / except Exception as e: handler(e)] *)
Definition try_except {A} (body : M A) (handler : exn -> M A) : M A :=
  fun t =>
    match body t with
    | (Ok a, t') => (Ok a, t')
    | (Raise e, t') => handler e t'
    end.

Definition create (E : env) (r : chat_request) : M completion :=
  fun t => (chat_create E r (requests_sent t), t ++ [SentRequest r]).

(** [resp.choices[0].message.content.strip()] *)
Definition first_content (resp : completion) : result str :=
  match resp with
  | [] => Raise IndexError
  | None :: _ => Raise AttributeError
  | Some s :: _ => Ok (strip s)
  end.

(** [total = a_resp + b_resp or 1] and the two lines after it. *)
Definition normalize (a_resp b_resp : Z) : result (Z * Z) :=
  let total := if a_resp + b_resp =? 0 then 1 else a_resp + b_resp in
  a_resp' ← share a_resp total;
  let b_resp' := 100 - a_resp' in
  Ok (a_resp', b_resp').

(** The part of [get_judgment_llm] after [data = json.loads(raw_text)]. *)
Definition judgment_of_data (E : env) (data : json) : result Judgment :=
  a_resp ← (get data k_a_responsibility (JInt 50) ≫= py_int (int_of_str E));
  b_resp ← (get data k_b_responsibility (JInt 50) ≫= py_int (int_of_str E));
  '(a_resp, b_resp) ← normalize a_resp b_resp;
  summary ← (get data k_neutral_summary (JStr []) ≫= strip_method);
  adv_a ← (get data k_advice_a (JStr []) ≫= strip_method);
  adv_b ← (get data k_advice_b (JStr []) ≫= strip_method);
  apology ← (get data k_apology_template (JStr []) ≫= strip_method);
  flag ← (py_bool <$> get data k_safety_flag (JBool false));
  message ← (get data k_safety_message (JStr []) ≫= strip_method);
  Ok {| neutral_summary := summary;
        a_responsibility := a_resp;
        b_responsibility := b_resp;
        advice_a := adv_a;
        advice_b := adv_b;
        apology_template := apology;
        safety_flag := flag;
        safety_message := message |}.

(** [get_judgment_llm] *)
Definition get_judgment_llm (E : env) (story_a story_b tone : str) : M Judgment :=
  resp ← create E {| req_story_a := story_a; req_story_b := story_b;
                     req_tone := tone |};
  raw_text ← lift (first_content resp);
  _ ← emit (PrintedRaw raw_text);
  data ← lift (json_loads E raw_text);
  lift (judgment_of_data E data).

(** [get_judgment] *)
Definition get_judgment (E : env) (story_a story_b tone : str) : M Judgment :=
  try_except (get_judgment_llm E story_a story_b tone)
    (fun e =>
       _ ← emit (PrintedFailure e);
       lift (get_judgment_mock story_a story_b tone)).

(** ** The pages

    The rest of [app.py] is a script that the framework runs from top to
    bottom on every interaction, over a session state that outlives the
    runs.  The model keeps what the script reads and writes, the requests
    of the oracle, the readings of the clock, the waits, and the elements
    of the page that depend on the state; the style sheet, the header and
    the images are the same on every run and are left out. *)

Definition phase_input : str := Eval vm_compute in lit "input".
Definition phase_thinking : str := Eval vm_compute in lit "thinking".
Definition phase_results : str := Eval vm_compute in lit "results".
Definition tone_gentle : str := Eval vm_compute in lit "Gentle".

(** [st.session_state]: each key is absent or holds a value of the type
    the script gives it. *)
Record session : Type := {
  phase : option str;
  step : option Z;
  judgment : option (option Judgment);
  pending_story_a : option str;
  pending_story_b : option str;
  pending_tone : option str
}.

(** The session state of a new visitor. *)
Definition no_session : session :=
  {| phase := None; step := None; judgment := None;
     pending_story_a := None; pending_story_b := None; pending_tone := None |}.

Definition set_phase (v : str) (s : session) : session :=
  {| phase := Some v; step := step s; judgment := judgment s;
     pending_story_a := pending_story_a s; pending_story_b := pending_story_b s;
     pending_tone := pending_tone s |}.

Definition set_step (v : Z) (s : session) : session :=
  {| phase := phase s; step := Some v; judgment := judgment s;
     pending_story_a := pending_story_a s; pending_story_b := pending_story_b s;
     pending_tone := pending_tone s |}.

Definition set_judgment (v : option Judgment) (s : session) : session :=
  {| phase := phase s; step := step s; judgment := Some v;
     pending_story_a := pending_story_a s; pending_story_b := pending_story_b s;
     pending_tone := pending_tone s |}.

(** The three assignments of a submitted form. *)
Definition set_pending (story_a story_b tone : str) (s : session) : session :=
  {| phase := phase s; step := step s; judgment := judgment s;
     pending_story_a := Some story_a; pending_story_b := Some story_b;
     pending_tone := Some tone |}.

(** The three [pop] of [reset_case]. *)
Definition pop_pending (s : session) : session :=
  {| phase := phase s; step := step s; judgment := judgment s;
     pending_story_a := None; pending_story_b := None; pending_tone := None |}.

(** The three [if ... not in st.session_state] at the top of the script. *)
Definition init_session (s : session) : session :=
  let s := match phase s with Some _ => s | None => set_phase phase_input s end in
  let s := match step s with Some _ => s | None => set_step 0 s end in
  match judgment s with Some _ => s | None => set_judgment None s end.

(** The functions given to [on_click]. *)
Inductive callback : Type := NextStep | PrevStep | ResetCase.

Inductive person : Type := PersonA | PersonB.

(** An argument of [time.sleep]: an [int] or a [float]. *)
Inductive duration : Type :=
| Seconds (n : Z)
| FloatSeconds (x : float).

(** What a run puts on the page. *)
Inductive element : Type :=
| ThinkingVideo
| VideoMissing
| InputForm
| Warning
| Button (on_click : callback)
| Progress (value : float)
| Caption (step : Z)
| SafetyError (message : str)
| VerdictCard (summary : str)
| Chart (a b : Z)
| Breakdown (a b : Z)
| AdviceCard (who : person) (advice : str)
| ApologyCard (template : str).

Record ui_env : Type := {
  oracle : env;
  (** [time.time()]; the argument counts the readings before this one. *)
  time_time : nat -> float;
  (** [assets/loading.mov] is there. *)
  loading_video : bool
}.

Record world : Type := {
  state : session;
  log : trace;
  clock_reads : nat;
  sleeps : list duration;
  page : list element
}.

(** Computations of the script. *)
Definition UI (A : Type) : Type := world -> result A * world.

#[export] Instance UI_ret : MRet UI := fun A a w => (Ok a, w).
#[export] Instance UI_bind : MBind UI := fun A B f m w =>
  match m w with
  | (Ok a, w') => f a w'
  | (Raise e, w') => (Raise e, w')
  end.

(** [st.session_state.key], read. *)
Definition attr {A} (key : session -> option A) : UI A :=
  fun w =>
    (match key (state w) with Some a => Ok a | None => Raise AttributeError end, w).

(** [st.session_state.get(key, dflt)] *)
Definition state_get {A} (key : session -> option A) (dflt : A) : UI A :=
  fun w => (Ok (default dflt (key (state w))), w).

Definition update (f : session -> session) : UI unit :=
  fun w =>
    (Ok tt, {| state := f (state w); log := log w; clock_reads := clock_reads w;
               sleeps := sleeps w; page := page w |}).

Definition render (el : element) : UI unit :=
  fun w =>
    (Ok tt, {| state := state w; log := log w; clock_reads := clock_reads w;
               sleeps := sleeps w; page := page w ++ [el] |}).

(** A run starts from an empty page. *)
Definition clear_page : UI unit :=
  fun w =>
    (Ok tt, {| state := state w; log := log w; clock_reads := clock_reads w;
               sleeps := sleeps w; page := [] |}).

Definition now (U : ui_env) : UI float :=
  fun w =>
    (Ok (time_time U (clock_reads w)),
     {| state := state w; log := log w; clock_reads := S (clock_reads w);
        sleeps := sleeps w; page := page w |}).

Definition sleep (d : duration) : UI unit :=
  fun w =>
    (Ok tt, {| state := state w; log := log w; clock_reads := clock_reads w;
               sleeps := sleeps w ++ [d]; page := page w |}).

Definition call {A} (m : M A) : UI A :=
  fun w =>
    let '(r, t) := m (log w) in
    (r, {| state := state w; log := t; clock_reads := clock_reads w;
           sleeps := sleeps w; page := page w |}).

Definition pure {A} (r : result A) : UI A := fun w => (r, w).

(** [next_step] *)
Definition next_step : UI unit :=
  st ← attr step; update (set_step (Z.min 3 (st + 1))).

(** [prev_step] *)
Definition prev_step : UI unit :=
  st ← attr step; update (set_step (Z.max 1 (st - 1))).

(** [reset_case] *)
Definition reset_case : UI unit :=
  update (set_phase phase_input);;
  update (set_step 0);;
  update (set_judgment None);;
  update pop_pending.

Definition run_callback (cb : callback) : UI unit :=
  match cb with
  | NextStep => next_step
  | PrevStep => prev_step
  | ResetCase => reset_case
  end.

(** [n - y] with an [int] on the left and a [float] on the right. *)
Definition int_sub_float (n : Z) (y : float) : result float :=
  x ← float_of_int n; Ok (SFsub prec emax x y).

(** [max(0, video_duration - elapsed)]: the [float] when it is greater
    than 0, the [int] 0 otherwise. *)
Definition remaining_wait (elapsed : float) : result duration :=
  x ← int_sub_float 10 elapsed;
  Ok (if SFltb (S754_zero false) x then FloatSeconds x else Seconds 0).

(** The block under [if st.session_state.phase == "thinking"], up to
    [st.rerun()]. *)
Definition thinking (U : ui_env) : UI unit :=
  (if loading_video U then render ThinkingVideo
   else render VideoMissing;; sleep (Seconds 3));;
  start ← now U;
  story_a ← state_get pending_story_a [];
  story_b ← state_get pending_story_b [];
  tone ← state_get pending_tone tone_gentle;
  j ← call (get_judgment (oracle U) story_a story_b tone);
  update (set_judgment (Some j));;
  finish_time ← now U;
  let elapsed := SFsub prec emax finish_time start in
  remaining ← pure (remaining_wait elapsed);
  sleep remaining;;
  update (set_phase phase_results);;
  update (set_step 1).

(** How a part of the script ends: with [st.rerun()] or by reaching its
    last line. *)
Inductive outcome : Type := Rerun | Completed.

(** The block under [if st.session_state.step == 0]; [form] is what was
    submitted when this run follows a click on the submit button. *)
Definition input_form (form : option (str * str * str)) : UI outcome :=
  render InputForm;;
  match form with
  | None => mret Completed
  | Some (story_a, story_b, tone) =>
      if bool_decide (story_a = []) || bool_decide (story_b = [])
      then render Warning;; mret Completed
      else
        update (set_pending story_a story_b tone);;
        update (set_phase phase_thinking);;
        mret Rerun
  end.

(** The block under [if st.session_state.step >= 1 and ... is not None]. *)
Definition results_flow (j : Judgment) : UI unit :=
  render (Button ResetCase);;
  st ← attr step;
  value ← pure (int_truediv st 3);
  render (Progress value);;
  render (Caption st);;
  (if safety_flag j then render (SafetyError (safety_message j)) else mret tt);;
  (if st =? 1 then
     render (VerdictCard (neutral_summary j));;
     render (Button NextStep)
   else mret tt);;
  (if st =? 2 then
     render (Chart (a_responsibility j) (b_responsibility j));;
     render (Breakdown (a_responsibility j) (b_responsibility j));;
     render (Button PrevStep);;
     render (Button NextStep)
   else mret tt);;
  (if st =? 3 then
     render (AdviceCard PersonA (advice_a j));;
     render (AdviceCard PersonB (advice_b j));;
     render (ApologyCard (apology_template j));;
     render (Button PrevStep);;
     render (Button ResetCase)
   else mret tt).

(** One run of the script. *)
Definition script (U : ui_env) (form : option (str * str * str)) : UI outcome :=
  clear_page;;
  update init_session;;
  ph ← attr phase;
  if bool_decide (ph = phase_thinking) then thinking U;; mret Rerun
  else
    st ← attr step;
    o ← (if st =? 0 then input_form form else mret Completed);
    match o with
    | Rerun => mret Rerun
    | Completed =>
        st ← attr step;
        if 1 <=? st then
          jd ← attr judgment;
          match jd with
          | Some j => results_flow j;; mret Completed
          | None => mret Completed
          end
        else mret Completed
    end.

(** The framework runs the script again after each [st.rerun()], with no
    form submitted; [fuel] bounds the number of runs. *)
Fixpoint runs (U : ui_env) (fuel : nat) (form : option (str * str * str)) : UI outcome :=
  match fuel with
  | O => mret Rerun
  | S n =>
      o ← script U form;
      match o with
      | Rerun => runs U n None
      | Completed => mret Completed
      end
  end.

(** What a visitor does: a click on a button, which calls its callback
    before the script runs, or the submission of the form. *)
Inductive user_action : Type :=
| Click (cb : callback)
| SubmitForm (story_a story_b tone : str).

Definition interact (U : ui_env) (act : user_action) : UI outcome :=
  match act with
  | Click cb => run_callback cb;; runs U 3 None
  | SubmitForm story_a story_b tone => runs U 3 (Some (story_a, story_b, tone))
  end.

(** A visitor can use what is on the page. *)
Definition enabled (w : world) (act : user_action) : Prop :=
  match act with
  | Click cb => In (Button cb) (page w)
  | SubmitForm _ _ _ => In InputForm (page w)
  end.

Definition new_world : world :=
  {| state := no_session; log := []; clock_reads := O; sleeps := []; page := [] |}.

(** The worlds a visit goes through: the first load, then one enabled
    action after the other. *)
Inductive visit (U : ui_env) : list user_action -> world -> Prop :=
| visit_load w :
    runs U 3 None new_world = (Ok Completed, w) -> visit U [] w
| visit_act acts act w w' :
    visit U acts w -> enabled w act ->
    interact U act w = (Ok Completed, w') ->
    visit U (acts ++ [act]) w'.

(** ** Vocabulary of the statements *)

(** The scenario of two short stories. *)
Definition scenario_story_a : str := Eval vm_compute in lit
  "We agreed to meet at 6 but they never showed up.".
Definition scenario_story_b : str := Eval vm_compute in lit
  "I got stuck at work and forgot to text.".

(** An environment in which nothing outside the process answers. *)
Definition offline : env :=
  {| chat_create := fun _ _ => Raise APIConnectionError;
     json_loads := fun _ => Raise JSONDecodeError;
     int_of_str := fun _ => Raise ValueError |}.

(** A reply that holds the two responsibilities and nothing else. *)
Definition reply_of (a b : Z) : gmap str json :=
  <[k_a_responsibility := JInt a]> (<[k_b_responsibility := JInt b]> ∅).

(** The text keys of a reply, each with the field it fills. *)
Definition text_fields : list (str * (Judgment -> str)) :=
  [ (k_neutral_summary, neutral_summary);
    (k_advice_a, advice_a);
    (k_advice_b, advice_b);
    (k_apology_template, apology_template);
    (k_safety_message, safety_message) ].

(** Every text of the reply that is there is a string. *)
Definition texts_are_str (d : gmap str json) : Prop :=
  forall k f, In (k, f) text_fields ->
    match d !! k with
    | Some v => exists s, v = JStr s
    | None => True%type
    end.

Definition in_range (j : Judgment) : Prop :=
  0 <= a_responsibility j <= 100 /\ 0 <= b_responsibility j <= 100.

Definition all_space (s : str) : Prop := Forall (fun c => isspace c = true) s.

Definition no_space_at_head (s : str) : Prop :=
  match s with
  | c :: _ => isspace c = false
  | [] => True%type
  end.

(** Neither the first nor the last character is white space. *)
Definition trimmed (s : str) : Prop :=
  no_space_at_head s /\ no_space_at_head (rev s).

(** [float(100)] *)
Definition hundred : float := S754_finite false 7036874417766400 (-46).

(** A shift record [mrs] holds the integer part of [P / D] and tells where
    the remainder lies with respect to half of [D]. *)
Definition located (P D : Z) (mrs : shr_record) : Prop :=
  0 < D /\ 0 <= P /\
  shr_m mrs = P / D /\
  shr_r mrs = (D <=? 2 * (P mod D)) /\
  shr_s mrs = negb (P mod D =? 0) && negb (2 * (P mod D) =? D).

(** What [binary_round_aux] does once the mantissa is rounded: a last
    shift, needed when rounding up reached the next power of two. *)
Definition finish (s : bool) (m2 e1 : Z) : spec_float :=
  let n2 := Z.max (fexp prec emax (Zdigits2 m2 + e1) - e1) 0 in
  match m2 / 2 ^ n2 with
  | Z0 => S754_zero s
  | Zpos m => if e1 + n2 <=? emax - prec then S754_finite s m (e1 + n2)
              else S754_infinity s
  | Zneg _ => S754_nan
  end.

(** The exponent at which [SFdiv] computes the quotient of two integers. *)
Definition div_exp (a t : positive) : Z :=
  Z.min (fexp prec emax (Zdigits2 (Z.pos a) - Zdigits2 (Z.pos t))) 0.

(** A float that lies between [0] and the integer [K]. *)
Definition bounded_by (K : Z) (f : spec_float) : Prop :=
  match f with
  | S754_zero _ => True
  | S754_finite false m e => e <= 0 /\ Z.pos m <= K * 2 ^ (- e)
  | _ => False
  end.

(** ** Vocabulary of the pages *)

(** The session state after the first run, and after every reset. *)
Definition fresh_session : session :=
  {| phase := Some phase_input; step := Some 0; judgment := Some None;
     pending_story_a := None; pending_story_b := None; pending_tone := None |}.

Definition thinking_session (story_a story_b tone : str) : session :=
  {| phase := Some phase_thinking; step := Some 0; judgment := Some None;
     pending_story_a := Some story_a; pending_story_b := Some story_b;
     pending_tone := Some tone |}.

Definition results_session (k : Z) (j : Judgment) (story_a story_b tone : str) : session :=
  {| phase := Some phase_results; step := Some k; judgment := Some (Some j);
     pending_story_a := Some story_a; pending_story_b := Some story_b;
     pending_tone := Some tone |}.

Definition with_page (p : list element) (w : world) : world :=
  {| state := state w; log := log w; clock_reads := clock_reads w;
     sleeps := sleeps w; page := p |}.

Definition with_state (s : session) (w : world) : world :=
  {| state := s; log := log w; clock_reads := clock_reads w;
     sleeps := sleeps w; page := page w |}.

(** The page of step [k] of the results. *)
Definition results_page (k : Z) (j : Judgment) : list element :=
  [Button ResetCase]
  ++ match int_truediv k 3 with Ok v => [Progress v] | Raise _ => [] end
  ++ [Caption k]
  ++ (if safety_flag j then [SafetyError (safety_message j)] else [])
  ++ (if k =? 1 then [VerdictCard (neutral_summary j); Button NextStep] else [])
  ++ (if k =? 2 then [Chart (a_responsibility j) (b_responsibility j);
                      Breakdown (a_responsibility j) (b_responsibility j);
                      Button PrevStep; Button NextStep] else [])
  ++ (if k =? 3 then [AdviceCard PersonA (advice_a j); AdviceCard PersonB (advice_b j);
                      ApologyCard (apology_template j);
                      Button PrevStep; Button ResetCase] else []).

Definition request_of (story_a story_b tone : str) : chat_request :=
  {| req_story_a := story_a; req_story_b := story_b; req_tone := tone |}.

(** What the thinking run leaves on the page and in the list of waits. *)
Definition thinking_page (U : ui_env) : list element :=
  if loading_video U then [ThinkingVideo] else [VideoMissing].

Definition thinking_sleeps (U : ui_env) (d : duration) : list duration :=
  (if loading_video U then [] else [Seconds 3]) ++ [d].

Definition at_input (w : world) : Prop :=
  state w = fresh_session /\
  (page w = [InputForm] \/ page w = [InputForm; Warning]).

(** A page of results: the judgment in the session is what the oracle
    returned on the stories and the tone that the session holds. *)
Definition at_results (U : ui_env) (w : world) : Prop :=
  exists k j story_a story_b tone l l',
    1 <= k <= 3 /\
    state w = results_session k j story_a story_b tone /\
    story_a <> [] /\ story_b <> [] /\
    get_judgment (oracle U) story_a story_b tone l = (Ok j, l') /\
    page w = results_page k j.

(** The form was submitted with two stories that are not empty. *)
Definition accepted (act : user_action) : bool :=
  match act with
  | SubmitForm story_a story_b _ =>
      negb (bool_decide (story_a = [])) && negb (bool_decide (story_b = []))
  | Click _ => false
  end.

(** A wait that is not negative: an [int] from 0 on, or a [float] above
    0. *)
Definition good_wait (d : duration) : Prop :=
  match d with
  | Seconds n => 0 <= n
  | FloatSeconds x => SFltb (S754_zero false) x = true
  end.

(** What one action adds to the log of the oracle. *)
Definition log_grows (act : user_action) (l l' : trace) : Prop :=
  match act with
  | SubmitForm story_a story_b tone =>
      if accepted act then
        exists rest,
          l' = l ++ SentRequest (request_of story_a story_b tone) :: rest /\
          requests_sent rest = O
      else l' = l
  | Click _ => l' = l
  end.

(** The number of submissions that were accepted. *)
Fixpoint cases_opened (acts : list user_action) : nat :=
  match acts with
  | [] => O
  | act :: acts' => ((if accepted act then 1 else 0) + cases_opened acts')%nat
  end.

(** The request of the oracle carries two stories that are not empty. *)
Definition request_has_stories (ev : event) : Prop :=
  match ev with
  | SentRequest r => req_story_a r <> [] /\ req_story_b r <> []
  | _ => True
  end.

Definition one : float := S754_finite false 4503599627370496 (-52).

(** A visitor with no service, and what the first load shows. *)
Definition no_service : ui_env :=
  {| oracle := offline; time_time := fun _ => S754_zero false; loading_video := true |}.

Definition first_page : world :=
  {| state := fresh_session; log := []; clock_reads := O; sleeps := [];
     page := [InputForm] |}.

(** The world after the stories of the scenario were submitted with no
    service. *)
Definition after_scenario : world :=
  Eval vm_compute in
    snd (interact no_service
           (SubmitForm scenario_story_a scenario_story_b tone_gentle) first_page).

(** The messages of the safety notices on a page. *)
Fixpoint safety_notices (p : list element) : list str :=
  match p with
  | [] => []
  | SafetyError message :: p' => message :: safety_notices p'
  | _ :: p' => safety_notices p'
  end.

Definition ten : float := S754_finite false 5629499534213120 (-49).

(** The world after a step forth from there: the page of the chart. *)
Definition at_the_chart : world :=
  Eval vm_compute in snd (interact no_service (Click NextStep) after_scenario).

(** ** Vocabulary of the edges *)

(** A float that lies between [0] and half of the integer [K]. *)
Definition at_most_half_of (K : Z) (f : spec_float) : Prop :=
  match f with
  | S754_zero _ => True
  | S754_finite false m e => e < 0 /\ Z.pos m <= K * 2 ^ (- e - 1)
  | _ => False
  end.

(** A service that answers every request with [raw], which [json.loads]
    decodes to [data]. *)
Definition answering (raw : str) (data : json) : env :=
  {| chat_create := fun _ _ => Ok [Some raw];
     json_loads := fun _ => Ok data;
     int_of_str := fun _ => Raise ValueError |}.

(** A decoded reply out of which no [Judgment] can be made: it is not an
    object, or one of its texts is there and is not a string. *)
Definition unusable (data : json) : Prop :=
  match data with
  | JDict d => ~ texts_are_str d
  | _ => True
  end.

(** ** Rounding: what [SpecFloat] computes *)

(** [pow2_pos e as H] adds [H : 0 < 2 ^ e], for an [e] that [lia] finds
    non-negative. *)
Tactic Notation "pow2_pos" constr(e) "as" ident(H) :=
  pose proof (Z.pow_pos_nonneg 2 e ltac:(lia) ltac:(lia)) as H.

(** [case_tests] splits on the comparisons that the goal tests. *)
Ltac case_tests :=
  repeat match goal with
  | |- context [?a <=? ?b] => destruct (Z.leb_spec a b)
  | |- context [?a <? ?b] => destruct (Z.ltb_spec a b)
  | |- context [?a =? ?b] => destruct (Z.eqb_spec a b)
  end.

(** *** The number of digits *)

Lemma digits2_pos_size (p : positive) : digits2_pos p = Pos.size p.
Proof. induction p as [p IH|p IH|]; simpl; congruence. Qed.

Lemma Zpos_size_bounds (p : positive) :
  2 ^ (Z.pos (Pos.size p) - 1) <= Z.pos p < 2 ^ Z.pos (Pos.size p).
Proof.
  pose proof (Pos.size_gt p) as Hgt. pose proof (Pos.size_le p) as Hle.
  apply Pos2Z.pos_lt_pos in Hgt. apply Pos2Z.pos_le_pos in Hle.
  rewrite Pos2Z.inj_pow in Hgt, Hle.
  replace (Z.pos (Pos.size p)) with (Z.succ (Z.pos (Pos.size p) - 1)) in Hle at 1 by lia.
  rewrite Z.pow_succ_r in Hle by lia. lia.
Qed.

Lemma Zdigits2_nonneg_bounds (m : Z) :
  0 < m -> 2 ^ (Zdigits2 m - 1) <= m < 2 ^ Zdigits2 m.
Proof.
  destruct m as [|p|p]; try lia. intros _. simpl.
  rewrite digits2_pos_size. apply Zpos_size_bounds.
Qed.

Lemma Zdigits2_pos (m : Z) : 0 < m -> 0 < Zdigits2 m.
Proof. destruct m; simpl; lia. Qed.

Lemma Zdigits2_le (m k : Z) : 0 <= k -> 0 <= m < 2 ^ k -> Zdigits2 m <= k.
Proof.
  intros Hk [Hm Hlt].
  destruct (Z.eq_dec m 0) as [->|Hne]; [simpl; lia|].
  pose proof (Zdigits2_nonneg_bounds m ltac:(lia)) as [Hlo _].
  pose proof (Zdigits2_pos m ltac:(lia)).
  destruct (Z_le_gt_dec (Zdigits2 m) k) as [|Hgt]; [assumption|exfalso].
  assert (2 ^ k <= 2 ^ (Zdigits2 m - 1)) by (apply Z.pow_le_mono_r; lia).
  lia.
Qed.

(** *** Shifting keeps the place of the remainder *)

Lemma located_exact (m : Z) :
  0 <= m -> located m 1 (shr_record_of_loc m loc_Exact).
Proof.
  intros Hm. unfold located. simpl.
  rewrite Z.div_1_r, Z.mod_1_r. simpl. repeat split; lia.
Qed.

Lemma shr_1_located (P D : Z) (mrs : shr_record) :
  located P D mrs -> located P (2 * D) (shr_1 mrs).
Proof.
  intros (HD & HP & Hm & Hr & Hs).
  assert (Hq : P / (2 * D) = (P / D) / 2)
    by (rewrite (Z.mul_comm 2 D), Z.div_div by lia; reflexivity).
  assert (Hrem : P mod (2 * D) = D * ((P / D) mod 2) + P mod D)
    by (rewrite (Z.mul_comm 2 D), Z.rem_mul_r by lia; lia).
  pose proof (Z.mod_pos_bound P D HD) as Hb.
  pose proof (Z.div_pos P D HP HD) as Hq0.
  destruct mrs as [m r s]. simpl in Hm, Hr, Hs. subst m r s.
  set (q := P / D) in *. set (rm := P mod D) in *.
  assert (Hcases : (q mod 2 = 0 /\ q = 2 * (q / 2)) \/ (q mod 2 = 1 /\ q = 2 * (q / 2) + 1)).
  { pose proof (Z.div_mod q 2 ltac:(lia)). pose proof (Z.mod_pos_bound q 2 ltac:(lia)). lia. }
  unfold located, shr_1. rewrite Hq, Hrem.
  destruct q as [|[p|p|]|p]; try lia; simpl shr_m; simpl shr_r; simpl shr_s;
    repeat split; try lia;
    destruct Hcases as [[Hc Hd]|[Hc Hd]]; try (exfalso; lia); rewrite ?Hc;
    try (rewrite Hd at 1; lia);
    destruct (Z.leb_spec D (2 * rm)), (Z.eqb_spec rm 0), (Z.eqb_spec (2 * rm) D);
    simpl; try lia;
    case_tests; simpl; try reflexivity; try lia.
Qed.

Lemma iter_pos_shr_1_located (p : positive) :
  forall P D mrs, located P D mrs ->
    located P (D * 2 ^ Z.pos p) (SpecFloat.iter_pos shr_1 p mrs).
Proof.
  induction p as [p IH|p IH|]; intros P D mrs H; simpl SpecFloat.iter_pos.
  - apply shr_1_located, IH, IH in H.
    replace (D * 2 ^ Z.pos p~1) with (2 * D * 2 ^ Z.pos p * 2 ^ Z.pos p); [exact H|].
    replace (Z.pos p~1) with (Z.pos p + Z.pos p + 1) by lia.
    rewrite !Z.pow_add_r, Z.pow_1_r by lia. ring.
  - apply IH, IH in H.
    replace (D * 2 ^ Z.pos p~0) with (D * 2 ^ Z.pos p * 2 ^ Z.pos p); [exact H|].
    replace (Z.pos p~0) with (Z.pos p + Z.pos p) by lia.
    rewrite Z.pow_add_r by lia. ring.
  - apply shr_1_located in H. rewrite Z.pow_1_r, Z.mul_comm. exact H.
Qed.

Lemma shr_located (P D : Z) (mrs : shr_record) (e n : Z) :
  located P D mrs ->
  located P (D * 2 ^ Z.max n 0) (fst (shr mrs e n)) /\
  snd (shr mrs e n) = e + Z.max n 0.
Proof.
  intros H. destruct n as [|p|p]; simpl.
  - rewrite Z.mul_1_r, Z.add_0_r. auto.
  - split; [|reflexivity]. apply iter_pos_shr_1_located, H.
  - rewrite Z.mul_1_r, Z.add_0_r. auto.
Qed.

Lemma round_nearest_even_located (P D : Z) (mrs : shr_record) :
  located P D mrs ->
  round_nearest_even (shr_m mrs) (loc_of_shr_record mrs) = rne P D.
Proof.
  intros (HD & HP & Hm & Hr & Hs). destruct mrs as [m r s].
  simpl in Hm, Hr, Hs. subst m r s. unfold rne. simpl.
  pose proof (Z.mod_pos_bound P D HD) as Hb.
  case_tests; simpl; try lia; reflexivity.
Qed.

(** [binary_round_aux] on a mantissa that stands for [P / D]: shift to the
    exponent of the format, round [P] over the shifted [D], finish. *)
Lemma binary_round_aux_located (P D : Z) (s : bool) (mx ex : Z) (lx : location) :
  located P D (shr_record_of_loc mx lx) ->
  let n := Z.max (fexp prec emax (Zdigits2 mx + ex) - ex) 0 in
  binary_round_aux prec emax s mx ex lx = finish s (rne P (D * 2 ^ n)) (ex + n).
Proof.
  intros H n. unfold binary_round_aux, shr_fexp.
  pose proof (shr_located P D _ ex (fexp prec emax (Zdigits2 mx + ex) - ex) H) as [H1 E1].
  fold n in H1, E1.
  destruct (shr (shr_record_of_loc mx lx) ex _) as [mrs' e'].
  simpl in H1, E1. subst e'.
  rewrite (round_nearest_even_located _ _ _ H1).
  set (m2 := rne P (D * 2 ^ n)).
  assert (Hm2 : 0 <= m2).
  { destruct H1 as (HD & HP & _). unfold m2, rne.
    pose proof (Z.div_pos P _ HP HD).
    repeat match goal with |- context [if ?b then _ else _] => destruct b end; lia. }
  pose proof (shr_located m2 1 _ (ex + n)
                (fexp prec emax (Zdigits2 m2 + (ex + n)) - (ex + n))
                (located_exact m2 Hm2)) as [H2 E2].
  destruct (shr (shr_record_of_loc m2 loc_Exact) (ex + n) _) as [mrs'' e''].
  simpl in H2, E2. subst e''. unfold finish.
  destruct H2 as (_ & _ & -> & _). rewrite Z.mul_1_l. reflexivity.
Qed.

(** *** Bounds that rounding keeps *)

Lemma rne_bounds (P D : Z) :
  0 < D -> 0 <= P -> P / D <= rne P D <= P / D + 1.
Proof.
  intros HD HP. unfold rne.
  repeat match goal with |- context [if ?b then _ else _] => destruct b end; lia.
Qed.

Lemma rne_le (P D K : Z) : 0 < D -> 0 <= P -> P <= K * D -> rne P D <= K.
Proof.
  intros HD HP HK. unfold rne.
  pose proof (Z.div_mod P D ltac:(lia)) as Hdm.
  pose proof (Z.mod_pos_bound P D HD) as Hb.
  assert (Hq : P / D <= K) by (apply Z.div_le_upper_bound; lia).
  assert (Hlt : P / D = K -> P mod D = 0) by nia.
  destruct (Z.ltb_spec (2 * (P mod D)) D); [lia|].
  destruct (Z.ltb_spec D (2 * (P mod D))); [lia|].
  destruct (Z.even (P / D)); lia.
Qed.

Lemma fexp_le_0 (d : Z) : d <= 53 -> fexp prec emax d <= 0.
Proof. unfold fexp, SpecFloat.emin, prec, emax. lia. Qed.

Lemma finish_bounded (K m2 e1 : Z) :
  0 < K < 2 ^ 53 -> 0 <= m2 -> e1 <= 0 -> m2 <= K * 2 ^ (- e1) ->
  bounded_by K (finish false m2 e1).
Proof.
  intros HK Hm2 He1 Hle. unfold finish.
  set (n2 := Z.max (fexp prec emax (Zdigits2 m2 + e1) - e1) 0).
  assert (Hd : Zdigits2 m2 + e1 <= 53).
  { assert (Zdigits2 m2 <= 53 - e1); [|lia].
    apply Zdigits2_le; [lia|]. split; [lia|].
    replace (53 - e1) with (53 + - e1) by lia. rewrite Z.pow_add_r by lia.
    pose proof (Z.pow_pos_nonneg 2 (- e1) ltac:(lia) ltac:(lia)).
    assert (K * 2 ^ (- e1) < 2 ^ 53 * 2 ^ (- e1))
      by (apply Z.mul_lt_mono_pos_r; lia).
    lia. }
  pose proof (fexp_le_0 _ Hd) as Hf.
  assert (Hn2 : 0 <= n2 /\ e1 + n2 <= 0) by (unfold n2; lia).
  pow2_pos n2 as Hp.
  assert (Hq : 0 <= m2 / 2 ^ n2 <= K * 2 ^ (- (e1 + n2))).
  { split; [apply Z.div_pos; lia|].
    apply Z.div_le_upper_bound; [lia|].
    replace (- e1) with (n2 + - (e1 + n2)) in Hle by lia.
    rewrite Z.pow_add_r in Hle by lia. lia. }
  destruct (m2 / 2 ^ n2) as [|m|m]; simpl; try lia.
  destruct (Z.leb_spec (e1 + n2) (emax - prec)) as [_|Hov]; simpl.
  - split; lia.
  - unfold emax, prec in Hov. lia.
Qed.

Lemma round_bounded (K P D mx ex : Z) (lx : location) :
  0 < K < 2 ^ 53 ->
  located P D (shr_record_of_loc mx lx) ->
  ex <= 0 -> P <= K * D * 2 ^ (- ex) ->
  bounded_by K (binary_round_aux prec emax false mx ex lx).
Proof.
  intros HK Hloc Hex Hle.
  rewrite (binary_round_aux_located P D _ _ _ _ Hloc).
  set (n := Z.max (fexp prec emax (Zdigits2 mx + ex) - ex) 0).
  destruct Hloc as (HD & HP & Hm & _).
  assert (Hmx : mx = P / D) by (destruct lx as [|[]]; exact Hm).
  pow2_pos (- ex) as Hpe.
  assert (Hmxb : 0 <= mx <= K * 2 ^ (- ex)).
  { subst mx. split; [apply Z.div_pos; lia|].
    apply Z.div_le_upper_bound; lia. }
  assert (Hd : Zdigits2 mx + ex <= 53).
  { assert (Zdigits2 mx <= 53 - ex); [|lia].
    apply Zdigits2_le; [lia|]. split; [lia|].
    replace (53 - ex) with (53 + - ex) by lia. rewrite Z.pow_add_r by lia.
    assert (K * 2 ^ (- ex) < 2 ^ 53 * 2 ^ (- ex))
      by (apply Z.mul_lt_mono_pos_r; lia).
    lia. }
  pose proof (fexp_le_0 _ Hd) as Hf.
  assert (Hn : 0 <= n /\ ex + n <= 0) by (unfold n; lia).
  pow2_pos n as Hpn.
  assert (Hsplit : 2 ^ (- ex) = 2 ^ (- (ex + n)) * 2 ^ n).
  { rewrite <- Z.pow_add_r by lia. f_equal. lia. }
  apply finish_bounded; try lia.
  - pose proof (rne_bounds P (D * 2 ^ n) ltac:(nia) HP).
    pose proof (Z.div_pos P (D * 2 ^ n) HP ltac:(nia)). lia.
  - apply rne_le; [nia|lia|].
    rewrite Hsplit in Hle. lia.
Qed.

Lemma new_location_spec (D r : Z) :
  0 <= r < D ->
  new_location D r = if r =? 0 then loc_Exact else loc_Inexact (2 * r ?= D).
Proof.
  intros Hr. unfold new_location, new_location_even, new_location_odd.
  destruct (Z.even D) eqn:Hev; [reflexivity|].
  destruct (r =? 0); [reflexivity|]. f_equal.
  assert (Hodd : Z.odd D = true) by (rewrite <- Z.negb_even, Hev; reflexivity).
  apply Zodd_bool_iff, Zodd_ex in Hodd as [k Hk].
  destruct (Z.compare_spec (2 * r + 1) D), (Z.compare_spec (2 * r) D);
    try reflexivity; lia.
Qed.

Lemma new_location_located (P D : Z) :
  0 < D -> 0 <= P ->
  located P D (shr_record_of_loc (P / D) (new_location D (P mod D))).
Proof.
  intros HD HP. pose proof (Z.mod_pos_bound P D HD) as Hb.
  rewrite new_location_spec by exact Hb. unfold located.
  destruct (Z.eqb_spec (P mod D) 0) as [Hr0|Hr0];
    [|destruct (Z.compare_spec (2 * (P mod D)) D)]; simpl;
    repeat split; try lia;
    case_tests; simpl; try reflexivity; lia.
Qed.

Lemma SFdiv_integers (sa st : bool) (a t : positive) :
  let P := Z.pos a * 2 ^ (- div_exp a t) in
  SFdiv prec emax (S754_finite sa a 0) (S754_finite st t 0) =
  binary_round_aux prec emax (xorb sa st) (P / Z.pos t) (div_exp a t)
    (new_location (Z.pos t) (P mod Z.pos t)).
Proof.
  intros P. unfold SFdiv, SFdiv_core_binary.
  rewrite !Z.add_0_r, Z.sub_0_r. fold (div_exp a t).
  assert (He : div_exp a t <= 0) by (unfold div_exp; lia).
  set (m' := match 0 - div_exp a t with
             | 0 => Z.pos a
             | Z.pos _ => Z.shiftl (Z.pos a) (0 - div_exp a t)
             | Z.neg _ => 0
             end).
  assert (Hm' : m' = P).
  { unfold m', P. replace (0 - div_exp a t) with (- div_exp a t) by lia.
    destruct (- div_exp a t) as [|s|s] eqn:Es; try lia.
    rewrite Z.shiftl_mul_pow2 by lia. reflexivity. }
  rewrite Hm'. unfold Z.div, Z.modulo.
  destruct (Z.div_eucl P (Z.pos t)) as [q r]. reflexivity.
Qed.

(** [SFdiv] on two integers is their quotient rounded to the nearest
    float, ties to even: what [int / int] returns. *)
Lemma SFdiv_integers_rne (sa st : bool) (a t : positive) :
  let e := div_exp a t in
  let P := Z.pos a * 2 ^ (- e) in
  let n := Z.max (fexp prec emax (Zdigits2 (P / Z.pos t) + e) - e) 0 in
  SFdiv prec emax (S754_finite sa a 0) (S754_finite st t 0) =
  finish (xorb sa st) (rne P (Z.pos t * 2 ^ n)) (e + n).
Proof.
  intros e P n. rewrite SFdiv_integers.
  assert (He : e <= 0) by (unfold e, div_exp; lia).
  pow2_pos (- e) as Hp.
  apply binary_round_aux_located, new_location_located; unfold P; fold e; nia.
Qed.

Lemma SFdiv_bounded (a t : positive) :
  Z.pos a <= Z.pos t ->
  bounded_by 1 (SFdiv prec emax (S754_finite false a 0) (S754_finite false t 0)).
Proof.
  intros Hat. rewrite SFdiv_integers. simpl xorb.
  assert (He : div_exp a t <= 0) by (unfold div_exp; lia).
  pow2_pos (- div_exp a t) as Hp.
  apply round_bounded with (P := Z.pos a * 2 ^ (- div_exp a t)) (D := Z.pos t).
  - lia.
  - apply new_location_located; lia.
  - exact He.
  - nia.
Qed.

Lemma float_of_int_100 : float_of_int 100 = Ok hundred.
Proof. reflexivity. Qed.

Lemma SFmul_100_bounded (x : spec_float) :
  bounded_by 1 x -> bounded_by 100 (SFmul prec emax x hundred).
Proof.
  destruct x as [s|s| |[] m e]; simpl; try tauto.
  intros [He Hm].
  apply round_bounded with (P := Z.pos (m * 7036874417766400)) (D := 1).
  - lia.
  - apply located_exact. lia.
  - lia.
  - replace (- (e + -46)) with (- e + 46) by lia.
    rewrite Z.pow_add_r by lia. rewrite Pos2Z.inj_mul.
    change (2 ^ 46) with 70368744177664. lia.
Qed.

Lemma py_round_bounded (K : Z) (x : spec_float) :
  0 <= K -> bounded_by K x -> exists r, py_round x = Ok r /\ 0 <= r <= K.
Proof.
  intros HK. destruct x as [s|s| |[] m e]; simpl; try tauto.
  - intros _. exists 0. split; [reflexivity|lia].
  - intros [He Hm]. eexists. split; [reflexivity|].
    destruct (Z.leb_spec 0 e).
    + replace e with 0 in * by lia. simpl in Hm. lia.
    + pow2_pos (- e) as Hp.
      split.
      * pose proof (rne_bounds (Z.pos m) (2 ^ (- e)) Hp ltac:(lia)).
        pose proof (Z.div_pos (Z.pos m) (2 ^ (- e)) ltac:(lia) Hp). lia.
      * apply rne_le; lia.
Qed.

Lemma share_range (part total : Z) :
  0 <= part <= total -> 0 < total ->
  exists r, share part total = Ok r /\ 0 <= r <= 100.
Proof.
  intros [H0 Hle] Ht. unfold share, int_truediv.
  destruct (Z.eqb_spec total 0) as [|_]; [lia|].
  assert (Hq : bounded_by 1 (SFdiv prec emax (Z2SF part) (Z2SF total))).
  { destruct total as [|t|t]; try lia.
    destruct part as [|a|a]; try lia; simpl Z2SF.
    - exact I.
    - apply SFdiv_bounded. exact Hle. }
  destruct (SFdiv prec emax (Z2SF part) (Z2SF total)) as [s|s| |s m e] eqn:Eq;
    simpl in Hq; try tauto; unfold mbind, result_bind, float_mul_int;
    rewrite float_of_int_100;
    apply py_round_bounded; try lia; apply SFmul_100_bounded; simpl; exact Hq.
Qed.

(** The shares are computed in binary64: 23 out of 40 is 57.5 exactly, and
    0.575 * 100 is 57.49999999999999 as a float. *)
Example share_23_of_40 : share 23 40 = Ok 57.
Proof. reflexivity. Qed.

(** A tie goes to the even integer: 1 out of 8 is 12.5, rounded to 12. *)
Example share_1_of_8 : share 1 8 = Ok 12.
Proof. reflexivity. Qed.

(** ** White space: what [strip] removes *)

Lemma lstrip_split (s : str) :
  exists pre, s = pre ++ lstrip s /\ all_space pre /\ no_space_at_head (lstrip s).
Proof.
  induction s as [|c s (pre & Hs & Hpre & Hhd)]; simpl.
  - exists []. repeat split; constructor.
  - destruct (isspace c) eqn:Hc.
    + exists (c :: pre). repeat split; [simpl; congruence|constructor; assumption|assumption].
    + exists []. repeat split; [constructor|exact Hc].
Qed.

Lemma lstrip_last (s : str) :
  no_space_at_head (rev s) -> no_space_at_head (rev (lstrip s)).
Proof.
  induction s as [|c s IH]; simpl; [auto|]. intros H.
  destruct (isspace c) eqn:Hc; [|exact H]. apply IH.
  destruct (rev s) as [|c' r] eqn:Hr; simpl in *; [|exact H].
  exact I.
Qed.

Lemma strip_split (s : str) :
  exists pre post, s = pre ++ strip s ++ post /\
    all_space pre /\ all_space post /\ trimmed (strip s).
Proof.
  unfold strip, rstrip.
  destruct (lstrip_split s) as (pre & Hs & Hpre & Hhd).
  destruct (lstrip_split (rev (lstrip s))) as (post & Hr & Hpost & Hlast).
  exists pre, (rev post). split; [|split; [assumption|split]].
  - rewrite Hs at 1. f_equal.
    rewrite <- (rev_involutive (lstrip s)) at 1. rewrite Hr at 1.
    apply rev_app_distr.
  - unfold all_space in *. apply Forall_rev. exact Hpost.
  - split.
    + rewrite <- (rev_involutive (lstrip s)) in Hhd.
      apply lstrip_last in Hhd. exact Hhd.
    + rewrite rev_involutive. exact Hlast.
Qed.

(** ** Accuracy: half a unit in the last place *)

Lemma Zdigits2_eq (m k : Z) : 2 ^ (k - 1) <= m < 2 ^ k -> 0 < k -> Zdigits2 m = k.
Proof.
  intros [Hlo Hhi] Hk.
  assert (Hm : 0 < m) by (pose proof (Z.pow_pos_nonneg 2 (k - 1)); lia).
  pose proof (Zdigits2_nonneg_bounds m Hm) as [Hlo' Hhi'].
  pose proof (Zdigits2_pos m Hm) as Hd.
  assert (k - 1 < Zdigits2 m) by (apply (Z.pow_lt_mono_r_iff 2); lia).
  assert (Zdigits2 m - 1 < k) by (apply (Z.pow_lt_mono_r_iff 2); lia).
  lia.
Qed.

Lemma rne_unique (P D K : Z) : 0 < D -> 2 * Z.abs (P - K * D) < D -> rne P D = K.
Proof.
  intros HD H. unfold rne.
  pose proof (Z.div_mod P D ltac:(lia)) as Hdm.
  pose proof (Z.mod_pos_bound P D HD) as Hb.
  assert (Hq : P / D = K \/ P / D = K - 1) by nia.
  destruct Hq as [Hq|Hq]; rewrite Hq in *.
  - destruct (Z.ltb_spec (2 * (P mod D)) D); [reflexivity|]. exfalso. nia.
  - destruct (Z.ltb_spec (2 * (P mod D)) D); [exfalso; nia|].
    destruct (Z.ltb_spec D (2 * (P mod D))); [lia|exfalso; nia].
Qed.

Lemma rne_error (P D : Z) : 0 < D -> 0 <= P -> 2 * Z.abs (rne P D * D - P) <= D.
Proof.
  intros HD HP. unfold rne.
  pose proof (Z.div_mod P D ltac:(lia)) as Hdm.
  pose proof (Z.mod_pos_bound P D HD) as Hb.
  destruct (Z.ltb_spec (2 * (P mod D)) D); [nia|].
  destruct (Z.ltb_spec D (2 * (P mod D))); [nia|].
  destruct (Z.even (P / D)); nia.
Qed.

(** Rounding a mantissa that has at least [prec] digits, away from the
    subnormal numbers and from overflow. *)
Lemma binary_round_aux_normal (P D : Z) (s : bool) (mx ex : Z) (lx : location) :
  located P D (shr_record_of_loc mx lx) ->
  53 <= Zdigits2 mx -> -1021 <= Zdigits2 mx + ex <= 1023 ->
  let n := Zdigits2 mx - 53 in
  exists m3 e3,
    binary_round_aux prec emax s mx ex lx = S754_finite s m3 e3 /\
    ex + n <= e3 <= ex + n + 1 /\
    Z.pos m3 * 2 ^ (e3 - (ex + n)) = rne P (D * 2 ^ n) /\
    2 ^ 52 <= Z.pos m3 < 2 ^ 53.
Proof.
  intros Hloc Hdm Hrange n.
  rewrite (binary_round_aux_located P D _ _ _ _ Hloc).
  assert (Hn : Z.max (fexp prec emax (Zdigits2 mx + ex) - ex) 0 = n)
    by (unfold fexp, SpecFloat.emin, prec, emax, n; lia).
  rewrite Hn. clear Hn.
  destruct Hloc as (HD & HP & Hm & _).
  assert (Hmx : mx = P / D) by (destruct lx as [|[]]; exact Hm).
  assert (Hn0 : 0 <= n) by (unfold n; lia).
  pose proof (Z.pow_pos_nonneg 2 n ltac:(lia) Hn0) as Hpn.
  assert (Hmx0 : 0 < mx).
  { pose proof (Z.div_pos P D HP HD). destruct mx; simpl in Hdm; lia. }
  pose proof (Zdigits2_nonneg_bounds mx Hmx0) as [Hlo Hhi].
  assert (Hm1 : 2 ^ 52 <= P / (D * 2 ^ n) < 2 ^ 53).
  { rewrite <- Z.div_div, <- Hmx by lia.
    replace (Zdigits2 mx - 1) with (52 + n) in Hlo by (unfold n; lia).
    replace (Zdigits2 mx) with (53 + n) in Hhi by (unfold n; lia).
    rewrite Z.pow_add_r in Hlo, Hhi by lia. split.
    - apply Z.div_le_lower_bound; lia.
    - apply Z.div_lt_upper_bound; lia. }
  pose proof (rne_bounds P (D * 2 ^ n) ltac:(nia) HP) as Hm2.
  set (m2 := rne P (D * 2 ^ n)) in *.
  unfold finish.
  destruct (Z.eq_dec m2 (2 ^ 53)) as [Heq|Hne].
  - assert (Hd2 : Zdigits2 m2 = 54) by (apply Zdigits2_eq; [rewrite Heq; simpl; lia|lia]).
    assert (Hn2 : Z.max (fexp prec emax (Zdigits2 m2 + (ex + n)) - (ex + n)) 0 = 1)
      by (rewrite Hd2; unfold fexp, SpecFloat.emin, prec, emax, n; lia).
    rewrite Hn2, Heq. change (2 ^ 53 / 2 ^ 1) with (Z.pos 4503599627370496).
    cbv iota beta.
    destruct (Z.leb_spec (ex + n + 1) (emax - prec)) as [_|Hov];
      [|unfold emax, prec, n in Hov; lia].
    exists 4503599627370496%positive, (ex + n + 1).
    split; [reflexivity|]. split; [lia|]. split; [|simpl; lia].
    replace (ex + n + 1 - (ex + n)) with 1 by lia. reflexivity.
  - assert (Hd2 : Zdigits2 m2 = 53) by (apply Zdigits2_eq; [simpl; lia|lia]).
    assert (Hn2 : Z.max (fexp prec emax (Zdigits2 m2 + (ex + n)) - (ex + n)) 0 = 0)
      by (rewrite Hd2; unfold fexp, SpecFloat.emin, prec, emax, n; lia).
    rewrite Hn2, Z.pow_0_r, Z.div_1_r, Z.add_0_r.
    destruct m2 as [|m|m] eqn:Em; try (simpl in Hm2; lia).
    destruct (Z.leb_spec (ex + n) (emax - prec)) as [_|Hov];
      [|unfold emax, prec, n in Hov; lia].
    exists m, (ex + n). split; [reflexivity|]. split; [lia|].
    split; [rewrite Z.sub_diag; simpl; lia|lia].
Qed.

Lemma Zdigits2_gt (m k : Z) : 0 <= k -> 2 ^ k <= m -> k < Zdigits2 m.
Proof.
  intros Hk Hm.
  assert (Hm0 : 0 < m) by (pose proof (Z.pow_pos_nonneg 2 k); lia).
  pose proof (Zdigits2_nonneg_bounds m Hm0) as [_ Hhi].
  pose proof (Zdigits2_pos m Hm0).
  apply (Z.pow_lt_mono_r_iff 2); lia.
Qed.

(** The quotient of an integer by 100 is within half a unit in the last
    place of the exact one. *)
Lemma SFdiv_100_accurate (sa : bool) (a : positive) :
  Z.pos a < 2 ^ 53 ->
  exists m e,
    SFdiv prec emax (S754_finite sa a 0) (S754_finite false 100 0)
    = S754_finite sa m e /\
    2 ^ 52 <= Z.pos m < 2 ^ 53 /\ -60 <= e < 0 /\
    2 ^ 53 * Z.abs (100 * Z.pos m - Z.pos a * 2 ^ (- e)) <= Z.pos a * 2 ^ (- e).
Proof.
  intros Ha. rewrite SFdiv_integers. rewrite xorb_false_r.
  pose proof (Zdigits2_nonneg_bounds (Z.pos a) ltac:(lia)) as [Hlo Hhi].
  pose proof (Zdigits2_pos (Z.pos a) ltac:(lia)) as Hd1.
  pose proof (Zdigits2_le (Z.pos a) 53 ltac:(lia) ltac:(lia)) as Hd1'.
  set (d1 := Zdigits2 (Z.pos a)) in *.
  assert (He : div_exp a 100 = d1 - 60).
  { unfold div_exp. fold d1. change (Zdigits2 100) with 7.
    unfold fexp, SpecFloat.emin, prec, emax. lia. }
  rewrite He. replace (- (d1 - 60)) with (60 - d1) by lia.
  set (s := 60 - d1). set (P := Z.pos a * 2 ^ s).
  pow2_pos s as Hps.
  assert (HP : 2 ^ 59 <= P < 2 ^ 60).
  { replace 59 with (d1 - 1 + s) by lia. replace 60 with (d1 + s) by lia.
    rewrite !Z.pow_add_r by lia. unfold P. nia. }
  pose proof (Z.div_mod P 100 ltac:(lia)) as Hdm.
  pose proof (Z.mod_pos_bound P 100 ltac:(lia)) as Hmod.
  assert (Hq : 2 ^ 52 <= P / 100 < 2 ^ 54) by lia.
  pose proof (Zdigits2_gt (P / 100) 52 ltac:(lia) ltac:(lia)) as Hdq.
  pose proof (Zdigits2_le (P / 100) 54 ltac:(lia) ltac:(lia)) as Hdq'.
  pose proof (Zdigits2_nonneg_bounds (P / 100) ltac:(lia)) as [Hqlo _].
  destruct (binary_round_aux_normal P 100 sa (P / 100) (d1 - 60)
              (new_location 100 (P mod 100)))
    as (m & e & Hr & He3 & Hm2 & Hm); try lia.
  { apply new_location_located; lia. }
  set (n := Zdigits2 (P / 100) - 53) in *.
  exists m, e. split; [exact Hr|]. split; [exact Hm|]. split; [lia|].
  pose proof (rne_error P (100 * 2 ^ n) ltac:(pose proof (Z.pow_pos_nonneg 2 n); lia)
                ltac:(lia)) as Herr.
  rewrite <- Hm2 in Herr.
  set (k := e - (d1 - 60 + n)) in *.
  assert (HW : 2 ^ s = 2 ^ (- e) * (2 ^ n * 2 ^ k)).
  { rewrite <- !Z.pow_add_r by lia. f_equal. unfold s, k. lia. }
  replace (Zdigits2 (P / 100) - 1) with (52 + n) in Hqlo by (unfold n; lia).
  rewrite Z.pow_add_r in Hqlo by lia.
  pow2_pos n as Hpn.
  pow2_pos k as Hpk.
  pow2_pos (- e) as Hpw.
  unfold P in *. rewrite HW in *.
  set (W := 2 ^ (- e)) in *. set (pn := 2 ^ n) in *. set (pk := 2 ^ k) in *.
  set (c := 2 ^ 52) in *.
  replace (2 ^ 53) with (2 * c) by reflexivity.
  assert (H1 : 2 * (pn * pk) * Z.abs (100 * Z.pos m - Z.pos a * W) <= 100 * pn).
  { replace (Z.pos m * pk * (100 * pn) - Z.pos a * (W * (pn * pk)))
      with ((pn * pk) * (100 * Z.pos m - Z.pos a * W)) in Herr by ring.
    rewrite Z.abs_mul, (Z.abs_eq (pn * pk)) in Herr by nia. lia. }
  assert (H2 : c * (100 * pn) <= Z.pos a * W * (pn * pk)) by nia.
  assert (H3 : (pn * pk) * (2 * c * Z.abs (100 * Z.pos m - Z.pos a * W))
               <= (pn * pk) * (Z.pos a * W)) by nia.
  apply Z.mul_le_mono_pos_l in H3; [exact H3|nia].
Qed.

(** The product of a normal number by 100 is within half a unit in the
    last place of the exact one. *)
Lemma SFmul_100_accurate (s : bool) (m : positive) (e : Z) :
  2 ^ 52 <= Z.pos m < 2 ^ 53 -> -900 <= e <= 900 ->
  exists m' e',
    SFmul prec emax (S754_finite s m e) hundred = S754_finite s m' e' /\
    2 ^ 52 <= Z.pos m' < 2 ^ 53 /\ e + 6 <= e' /\
    2 ^ 53 * Z.abs (Z.pos m' * 2 ^ (e' - e + 46) - Z.pos m * 7036874417766400)
    <= Z.pos m * 7036874417766400.
Proof.
  intros Hm He. unfold hundred, SFmul. rewrite xorb_false_r.
  rewrite Pos2Z.inj_mul.
  set (M := 7036874417766400). set (Pm := Z.pos m * Z.pos 7036874417766400).
  assert (HPm : 2 ^ 104 <= Pm < 2 ^ 106) by (unfold Pm; lia).
  pose proof (Zdigits2_gt Pm 104 ltac:(lia) ltac:(lia)) as Hd.
  pose proof (Zdigits2_le Pm 106 ltac:(lia) ltac:(lia)) as Hd'.
  pose proof (Zdigits2_nonneg_bounds Pm ltac:(lia)) as [Hlo _].
  destruct (binary_round_aux_normal Pm 1 s Pm (e + -46) loc_Exact)
    as (m' & e' & Hr & He' & Hm2 & Hm'); try lia.
  { apply located_exact. lia. }
  set (n := Zdigits2 Pm - 53) in *.
  exists m', e'. split; [exact Hr|]. split; [exact Hm'|]. split; [lia|].
  pow2_pos n as Hpn.
  pose proof (rne_error Pm (1 * 2 ^ n) ltac:(lia) ltac:(lia)) as Herr.
  rewrite <- Hm2 in Herr.
  set (k := e' - (e + -46 + n)) in *.
  replace (e' - e + 46) with (k + n) by (unfold k; lia).
  rewrite Z.pow_add_r by lia.
  replace (Zdigits2 Pm - 1) with (52 + n) in Hlo by (unfold n; lia).
  rewrite Z.pow_add_r in Hlo by lia.
  fold M Pm.
  replace (Z.pos m' * 2 ^ k * (1 * 2 ^ n) - Pm)
    with (Z.pos m' * (2 ^ k * 2 ^ n) - Pm) in Herr by ring.
  set (c := 2 ^ 52) in *. replace (2 ^ 53) with (2 * c) by reflexivity.
  lia.
Qed.

(** Dividing by 100, multiplying by 100 and rounding gives back an
    integer of up to 50 bits. *)
Lemma share_100_magnitude (s : bool) (a : positive) :
  Z.pos a <= 2 ^ 50 ->
  exists x,
    SFdiv prec emax (S754_finite s a 0) (S754_finite false 100 0) = x /\
    (match x with S754_infinity _ => False | _ => True%type end) /\
    py_round (SFmul prec emax x hundred) = Ok (cond_Zopp s (Z.pos a)).
Proof.
  intros Ha.
  destruct (SFdiv_100_accurate s a ltac:(lia)) as (m & e & Hx & Hm & He & Herr).
  rewrite Hx. eexists. split; [reflexivity|]. split; [exact I|].
  destruct (SFmul_100_accurate s m e Hm ltac:(lia))
    as (m' & e' & Hy & Hm' & He' & Herr').
  rewrite Hy. unfold py_round. f_equal. f_equal.
  set (M := 7036874417766400) in *.
  set (W := 2 ^ (- e)) in *. set (g := 2 ^ (e' - e + 46)) in *.
  pow2_pos (- e) as HW. fold W in HW.
  pow2_pos (e' - e + 46) as Hg. fold g in Hg.
  set (T := W * 2 ^ 46).
  (* the three values on the scale of [T] *)
  assert (HX : 2 ^ 53 * Z.abs (Z.pos m * M - Z.pos a * T) <= Z.pos a * T).
  { unfold T, M.
    replace (Z.pos m * 7036874417766400 - Z.pos a * (W * 2 ^ 46))
      with (2 ^ 46 * (100 * Z.pos m - Z.pos a * W)) by (simpl; ring).
    rewrite Z.abs_mul, (Z.abs_eq (2 ^ 46)) by lia. nia. }
  assert (HT : 2 ^ 46 <= T) by (unfold T; nia).
  assert (HaT : Z.pos a * T <= 2 ^ 50 * T) by nia.
  assert (HY : 2 * Z.abs (Z.pos m' * g - Z.pos a * T) < T) by lia.
  assert (Hgt : 2 ^ 52 * g < 2 ^ 51 * T) by nia.
  assert (Hneg : e' < 0).
  { destruct (Z_lt_ge_dec e' 0) as [|Hge]; [assumption|exfalso].
    assert (2 ^ (- e + 46) <= g)
      by (unfold g; apply Z.pow_le_mono_r; lia).
    unfold T, W in Hgt. rewrite <- Z.pow_add_r in Hgt by lia. lia. }
  destruct (Z.leb_spec 0 e') as [|_]; [lia|].
  apply rne_unique; [apply Z.pow_pos_nonneg; lia|].
  set (w := 2 ^ (- e')).
  pow2_pos (- e') as Hw. fold w in Hw.
  assert (HgT : g * w = T).
  { unfold g, w, T, W. rewrite <- !Z.pow_add_r by lia. f_equal. lia. }
  rewrite <- HgT in HY.
  replace (Z.pos m' * g - Z.pos a * (g * w)) with (g * (Z.pos m' - Z.pos a * w)) in HY by ring.
  rewrite Z.abs_mul, (Z.abs_eq g) in HY by lia.
  nia.
Qed.

Lemma share_100_identity (a : Z) :
  - 2 ^ 50 <= a <= 2 ^ 50 -> share a 100 = Ok a.
Proof.
  intros Ha. unfold share, int_truediv. change (100 =? 0) with false.
  cbv iota. change (Z2SF 100) with (S754_finite false 100 0).
  destruct a as [|p|p]; [reflexivity| |]; simpl Z2SF.
  - destruct (share_100_magnitude false p ltac:(lia)) as (x & -> & Hfin & Hr).
    destruct x; try contradiction; exact Hr.
  - destruct (share_100_magnitude true p ltac:(lia)) as (x & -> & Hfin & Hr).
    destruct x; try contradiction; exact Hr.
Qed.

(** ** The two strategies *)

Lemma len_nonneg (s : str) : 0 <= len s.
Proof. unfold len. lia. Qed.

Lemma bind_Ok {A B} (m : result A) (f : A -> result B) (b : B) :
  m ≫= f = Ok b -> exists a, m = Ok a /\ f a = Ok b.
Proof. destruct m as [a|e]; simpl; [eauto|discriminate]. Qed.

(** The fallback always has a share to report, between 0 and 100. *)
Lemma mock_share (story_a story_b : str) :
  exists a, share (len story_a) (Z.max (len story_a + len story_b) 1) = Ok a
            /\ 0 <= a <= 100.
Proof.
  pose proof (len_nonneg story_a). pose proof (len_nonneg story_b).
  apply share_range; lia.
Qed.

Lemma get_judgment_mock_Ok (story_a story_b tone : str) :
  exists a,
    share (len story_a) (Z.max (len story_a + len story_b) 1) = Ok a /\
    0 <= a <= 100 /\
    get_judgment_mock story_a story_b tone =
    Ok {| neutral_summary := mock_neutral_summary;
          a_responsibility := a;
          b_responsibility := 100 - a;
          advice_a := mock_advice_a;
          advice_b := mock_advice_b;
          apology_template := mock_apology_template;
          safety_flag := false;
          safety_message := [] |}.
Proof.
  destruct (mock_share story_a story_b) as (a & Ha & Hr).
  exists a. repeat split; try lia; [exact Ha|].
  unfold get_judgment_mock. rewrite Ha. reflexivity.
Qed.

Lemma normalize_Ok (a b a' b' : Z) :
  normalize a b = Ok (a', b') ->
  share a (if a + b =? 0 then 1 else a + b) = Ok a' /\ b' = 100 - a'.
Proof.
  unfold normalize. intros H. apply bind_Ok in H as (r & Hr & H).
  injection H as <- <-. auto.
Qed.

(** On two integers that are not negative the normalization returns, and
    what it returns is in range. *)
Lemma normalize_nonneg (a b : Z) :
  0 <= a -> 0 <= b ->
  exists a' b', normalize a b = Ok (a', b') /\ 0 <= a' <= 100 /\ 0 <= b' <= 100.
Proof.
  intros Ha Hb. unfold normalize.
  destruct (share_range a (if a + b =? 0 then 1 else a + b)) as (r & Hr & Hrange).
  - destruct (Z.eqb_spec (a + b) 0); lia.
  - destruct (Z.eqb_spec (a + b) 0); lia.
  - rewrite Hr. exists r, (100 - r). split; [reflexivity|lia].
Qed.

Section Oracle.

Context (E : env).

(** A reply is read through eight fields and nothing else. *)
Lemma judgment_of_data_Ok (d : gmap str json) (j : Judgment) :
  judgment_of_data E (JDict d) = Ok j ->
  exists a b,
    py_int (int_of_str E) (field d k_a_responsibility (JInt 50)) = Ok a /\
    py_int (int_of_str E) (field d k_b_responsibility (JInt 50)) = Ok b /\
    normalize a b = Ok (a_responsibility j, b_responsibility j) /\
    strip_method (field d k_neutral_summary (JStr [])) = Ok (neutral_summary j) /\
    strip_method (field d k_advice_a (JStr [])) = Ok (advice_a j) /\
    strip_method (field d k_advice_b (JStr [])) = Ok (advice_b j) /\
    strip_method (field d k_apology_template (JStr [])) = Ok (apology_template j) /\
    safety_flag j = py_bool (field d k_safety_flag (JBool false)) /\
    strip_method (field d k_safety_message (JStr [])) = Ok (safety_message j).
Proof.
  unfold judgment_of_data, get. intros H.
  apply bind_Ok in H as (a & Ha & H).
  apply bind_Ok in H as (b & Hb & H).
  apply bind_Ok in H as ([a' b'] & Hn & H).
  apply bind_Ok in H as (s1 & H1 & H).
  apply bind_Ok in H as (s2 & H2 & H).
  apply bind_Ok in H as (s3 & H3 & H).
  apply bind_Ok in H as (s4 & H4 & H).
  apply bind_Ok in H as (fl & H5 & H).
  apply bind_Ok in H as (s6 & H6 & H).
  injection H as <-. simpl in *. injection H5 as <-.
  exists a, b. repeat split; assumption.
Qed.

Lemma judgment_of_data_int_fields (d : gmap str json) (a b : Z) (j : Judgment) :
  field d k_a_responsibility (JInt 50) = JInt a ->
  field d k_b_responsibility (JInt 50) = JInt b ->
  judgment_of_data E (JDict d) = Ok j ->
  normalize a b = Ok (a_responsibility j, b_responsibility j).
Proof.
  intros Ha Hb H. apply judgment_of_data_Ok in H as (a0 & b0 & Ha0 & Hb0 & Hn & _).
  rewrite Ha in Ha0. rewrite Hb in Hb0. simpl in Ha0, Hb0.
  injection Ha0 as <-. injection Hb0 as <-. exact Hn.
Qed.

(** Only a [dict] can be turned into a [Judgment]. *)
Lemma judgment_of_data_dict (data : json) (j : Judgment) :
  judgment_of_data E data = Ok j -> exists d, data = JDict d.
Proof. destruct data; try discriminate. eauto. Qed.

(** ** The trace of one call *)

Lemma requests_sent_app (t u : trace) :
  requests_sent (t ++ u) = (requests_sent t + requests_sent u)%nat.
Proof.
  induction t as [|[r|s|e] t IH]; simpl; [reflexivity| |assumption|assumption].
  rewrite IH. reflexivity.
Qed.

(** The LLM strategy sends one request and, when the reply has a
    content, prints it; it returns what the reply decodes to. *)
Lemma get_judgment_llm_run (story_a story_b tone : str) (t : trace) :
  let r := {| req_story_a := story_a; req_story_b := story_b; req_tone := tone |} in
  let sent := t ++ [SentRequest r] in
  get_judgment_llm E story_a story_b tone t =
  match chat_create E r (requests_sent t) ≫= first_content with
  | Raise e => (Raise e, sent)
  | Ok raw_text =>
      (json_loads E raw_text ≫= judgment_of_data E, sent ++ [PrintedRaw raw_text])
  end.
Proof.
  unfold get_judgment_llm, create, lift, emit, mbind, M_bind, result_bind.
  destruct (chat_create E _ (requests_sent t)) as [resp|e]; [|reflexivity].
  destruct (first_content resp) as [raw|e]; [|reflexivity].
  destruct (json_loads E raw) as [data|e]; reflexivity.
Qed.

Lemma get_judgment_llm_requests (story_a story_b tone : str) (t : trace) :
  requests_sent (snd (get_judgment_llm E story_a story_b tone t)) = S (requests_sent t).
Proof.
  rewrite get_judgment_llm_run.
  destruct (_ ≫= first_content) as [raw|e]; simpl;
    rewrite ?requests_sent_app; simpl; lia.
Qed.

Lemma get_judgment_llm_Ok (story_a story_b tone : str) (t t' : trace)
    (j : Judgment) :
  get_judgment_llm E story_a story_b tone t = (Ok j, t') ->
  exists data, judgment_of_data E data = Ok j.
Proof.
  rewrite get_judgment_llm_run.
  destruct (_ ≫= first_content) as [raw|e]; [|discriminate].
  intros [= H _]. apply bind_Ok in H as (data & _ & H). eauto.
Qed.

(** A reply with two integers that are not negative and with strings for
    texts is turned into a [Judgment]. *)
Lemma judgment_of_data_returns (d : gmap str json) (a b : Z) :
  field d k_a_responsibility (JInt 50) = JInt a ->
  field d k_b_responsibility (JInt 50) = JInt b ->
  0 <= a -> 0 <= b -> texts_are_str d ->
  exists j, judgment_of_data E (JDict d) = Ok j.
Proof.
  intros Ha Hb Ha0 Hb0 Htexts.
  destruct (normalize_nonneg a b Ha0 Hb0) as (a' & b' & Hn & _).
  assert (Hstr : forall k f, In (k, f) text_fields ->
            exists s, strip_method (field d k (JStr [])) = Ok s).
  { intros k f Hin. specialize (Htexts k f Hin). unfold field.
    destruct (d !! k) as [v|]; simpl; [|eauto].
    destruct Htexts as [s ->]. simpl. eauto. }
  destruct (Hstr k_neutral_summary neutral_summary) as [s1 H1]; [simpl; auto|].
  destruct (Hstr k_advice_a advice_a) as [s2 H2]; [simpl; auto|].
  destruct (Hstr k_advice_b advice_b) as [s3 H3]; [simpl; auto|].
  destruct (Hstr k_apology_template apology_template) as [s4 H4]; [simpl; auto|].
  destruct (Hstr k_safety_message safety_message) as [s5 H5]; [simpl; auto 6|].
  unfold judgment_of_data, get, mbind, result_bind, fmap, result_fmap.
  rewrite Ha, Hb. cbn [py_int]. rewrite Hn, H1, H2, H3, H4, H5. eauto.
Qed.

End Oracle.

(** ** The claims *)

(** C1. Sum invariant: the fallback returns a [Judgment] for every pair of
    stories, the LLM strategy returns one or raises, and every [Judgment]
    that either of them or [get_judgment] returns has responsibilities
    that add up to 100. *)
Theorem sum_invariant :
  (forall story_a story_b tone, exists j,
      get_judgment_mock story_a story_b tone = Ok j /\
      a_responsibility j + b_responsibility j = 100) /\
  (forall E data j,
      judgment_of_data E data = Ok j ->
      a_responsibility j + b_responsibility j = 100) /\
  (forall E story_a story_b tone t j t',
      get_judgment_llm E story_a story_b tone t = (Ok j, t') ->
      a_responsibility j + b_responsibility j = 100) /\
  (forall E story_a story_b tone t, exists j t',
      get_judgment E story_a story_b tone t = (Ok j, t') /\
      a_responsibility j + b_responsibility j = 100).
Proof.
  assert (Hmock : forall story_a story_b tone, exists j,
             get_judgment_mock story_a story_b tone = Ok j /\
             a_responsibility j + b_responsibility j = 100).
  { intros. destruct (get_judgment_mock_Ok story_a story_b tone) as (a & _ & _ & ->).
    eexists. split; [reflexivity|]. simpl. lia. }
  assert (Hdata : forall E data j,
             judgment_of_data E data = Ok j ->
             a_responsibility j + b_responsibility j = 100).
  { intros E data j H.
    destruct (judgment_of_data_dict _ _ _ H) as [d ->].
    apply judgment_of_data_Ok in H as (a & b & _ & _ & Hn & _).
    apply normalize_Ok in Hn as [_ Hb]. lia. }
  assert (Hllm : forall E story_a story_b tone t j t',
             get_judgment_llm E story_a story_b tone t = (Ok j, t') ->
             a_responsibility j + b_responsibility j = 100).
  { intros E story_a story_b tone t j t' H.
    apply get_judgment_llm_Ok in H as [data H]. eauto. }
  repeat split; try assumption.
  intros. unfold get_judgment, try_except.
  destruct (get_judgment_llm E story_a story_b tone t) as [[j|e] t'] eqn:Hrun.
  - exists j, t'. eauto.
  - destruct (Hmock story_a story_b tone) as (j & Hj & Hs).
    exists j, (t' ++ [PrintedFailure e]). split; [|exact Hs].
    unfold mbind, M_bind, emit, lift. rewrite Hj. reflexivity.
Qed.

(** A reply with 60 and 60 is turned into a [Judgment] whose
    responsibilities add up to 100. *)
Lemma sum_invariant_witness :
  exists j, judgment_of_data offline (JDict (reply_of 60 60)) = Ok j /\
            a_responsibility j + b_responsibility j = 100.
Proof.
  eexists. split; [vm_compute; reflexivity|].
  eapply (proj1 (proj2 sum_invariant) offline (JDict (reply_of 60 60))).
  vm_compute. reflexivity.
Defined.

(** C2. [get_judgment] never raises; it sends exactly one request; when
    the LLM strategy returns a [Judgment] that is the result, and when it
    raises, whatever the exception, the result is that of
    [get_judgment_mock] on the same arguments. *)
Theorem get_judgment_total_single_attempt
    (E : env) (story_a story_b tone : str) (t : trace) :
  (exists j t', get_judgment E story_a story_b tone t = (Ok j, t')) /\
  requests_sent (snd (get_judgment E story_a story_b tone t)) = S (requests_sent t) /\
  match get_judgment_llm E story_a story_b tone t with
  | (Ok j, t') => get_judgment E story_a story_b tone t = (Ok j, t')
  | (Raise e, t') =>
      get_judgment E story_a story_b tone t =
      (get_judgment_mock story_a story_b tone, t' ++ [PrintedFailure e])
  end.
Proof.
  pose proof (get_judgment_llm_requests E story_a story_b tone t) as Hreq.
  unfold get_judgment, try_except.
  destruct (get_judgment_llm E story_a story_b tone t) as [[j|e] t'] eqn:Hrun;
    simpl in Hreq.
  - repeat split; eauto.
  - destruct (get_judgment_mock_Ok story_a story_b tone) as (a & _ & _ & Hj).
    unfold mbind, M_bind, emit, lift. rewrite Hj. simpl.
    repeat split; eauto.
    rewrite requests_sent_app. simpl. lia.
Qed.

(** C3. The fallback split is the value of
    [round(len(story_a) / max(len(story_a) + len(story_b), 1) * 100)],
    the other share is what is left of 100, the tone plays no part, and
    lengths 30 and 70 give 30 and 70. *)
Theorem heuristic_split_formula (story_a story_b tone : str) :
  exists j,
    get_judgment_mock story_a story_b tone = Ok j /\
    (q ← int_truediv (len story_a) (Z.max (len story_a + len story_b) 1);
     p ← float_mul_int q 100;
     py_round p) = Ok (a_responsibility j) /\
    b_responsibility j = 100 - a_responsibility j /\
    (forall tone', get_judgment_mock story_a story_b tone' = Ok j) /\
    (len story_a = 30 -> len story_b = 70 ->
     a_responsibility j = 30 /\ b_responsibility j = 70).
Proof.
  destruct (get_judgment_mock_Ok story_a story_b tone) as (a & Ha & _ & Hj).
  eexists. split; [exact Hj|]. simpl.
  split; [exact Ha|]. split; [reflexivity|]. split; [intros tone'; exact Hj|].
  intros Hla Hlb. rewrite Hla, Hlb in Ha.
  assert (Hc : share 30 (Z.max (30 + 70) 1) = Ok 30) by (vm_compute; reflexivity).
  rewrite Hc in Ha. injection Ha as <-. split; reflexivity.
Qed.

(** Thirty characters against seventy. *)
Lemma heuristic_split_formula_witness :
  exists j,
    get_judgment_mock (repeat 97%N 30) (repeat 98%N 70) [] = Ok j /\
    a_responsibility j = 30 /\ b_responsibility j = 70.
Proof.
  destruct (heuristic_split_formula (repeat 97%N 30) (repeat 98%N 70) [])
    as (j & Hj & _ & _ & _ & H3070).
  exists j. split; [exact Hj|]. apply H3070; reflexivity.
Defined.

(** C4. With integer responsibilities [a] and [b], a missing one read as
    50, and [total] their sum or 1 when the sum is 0, every [Judgment]
    made of the reply holds [round(a / total * 100)] and what is left of
    100; 40 and 40 give 50 and 50.  A [Judgment] is made whenever [a] and
    [b] are not negative and the texts of the reply are strings. *)
Theorem llm_normalization (E : env) (d : gmap str json) (a b : Z) :
  field d k_a_responsibility (JInt 50) = JInt a ->
  field d k_b_responsibility (JInt 50) = JInt b ->
  let total := if a + b =? 0 then 1 else a + b in
  (d !! k_a_responsibility = None -> a = 50) /\
  (d !! k_b_responsibility = None -> b = 50) /\
  (forall j, judgment_of_data E (JDict d) = Ok j ->
     (q ← int_truediv a total; p ← float_mul_int q 100; py_round p)
     = Ok (a_responsibility j) /\
     b_responsibility j = 100 - a_responsibility j /\
     a_responsibility j + b_responsibility j = 100 /\
     (a = 40 -> b = 40 -> a_responsibility j = 50 /\ b_responsibility j = 50)) /\
  (0 <= a -> 0 <= b -> texts_are_str d ->
   exists j, judgment_of_data E (JDict d) = Ok j).
Proof.
  intros Ha Hb total. split; [|split; [|split]].
  - intros Hnone. unfold field in Ha. rewrite Hnone in Ha. simpl in Ha. congruence.
  - intros Hnone. unfold field in Hb. rewrite Hnone in Hb. simpl in Hb. congruence.
  - intros j H.
    pose proof (judgment_of_data_int_fields E d a b j Ha Hb H) as Hn.
    apply normalize_Ok in Hn as [Hs Hb']. fold total in Hs.
    split; [exact Hs|]. split; [exact Hb'|]. split; [lia|].
    intros -> ->.
    assert (Hc : share 40 (if 40 + 40 =? 0 then 1 else 40 + 40) = Ok 50)
      by (vm_compute; reflexivity).
    unfold total in Hs. rewrite Hc in Hs. injection Hs as Hs. lia.
  - intros Ha0 Hb0 Htexts. eapply judgment_of_data_returns; eassumption.
Qed.

(** A reply with 40 and 40 is normalized to 50 and 50. *)
Lemma llm_normalization_witness :
  exists j, judgment_of_data offline (JDict (reply_of 40 40)) = Ok j /\
            a_responsibility j = 50 /\ b_responsibility j = 50.
Proof.
  destruct (llm_normalization offline (reply_of 40 40) 40 40 eq_refl eq_refl)
    as (_ & _ & Hval & _).
  eexists. split; [vm_compute; reflexivity|].
  eapply Hval; [vm_compute; reflexivity|reflexivity|reflexivity].
Defined.

(** C5, as the claim has it, fails on the LLM path: a reply with 150 and
    -50 is turned into a [Judgment] with 150 and -50. *)
Lemma range_invariant_llm_counterexample :
  exists j, judgment_of_data offline (JDict (reply_of 150 (-50))) = Ok j /\
            a_responsibility j = 150 /\ b_responsibility j = -50 /\
            (a_responsibility j <=? 100) = false /\
            (0 <=? b_responsibility j) = false.
Proof.
  eexists. split; [vm_compute; reflexivity|]. repeat split; reflexivity.
Qed.

(** C5, amended. The fallback returns responsibilities between 0 and 100
    for every pair of stories; so does the LLM strategy whenever the two
    integers of the reply are not negative, and on such integers the
    normalization does not raise. *)
Theorem range_invariant :
  (forall story_a story_b tone, exists j,
      get_judgment_mock story_a story_b tone = Ok j /\ in_range j) /\
  (forall a b, 0 <= a -> 0 <= b -> exists a' b',
      normalize a b = Ok (a', b') /\ 0 <= a' <= 100 /\ 0 <= b' <= 100) /\
  (forall E d a b j,
      field d k_a_responsibility (JInt 50) = JInt a ->
      field d k_b_responsibility (JInt 50) = JInt b ->
      0 <= a -> 0 <= b ->
      judgment_of_data E (JDict d) = Ok j ->
      in_range j).
Proof.
  split; [|split; [exact normalize_nonneg|]].
  - intros. destruct (get_judgment_mock_Ok story_a story_b tone) as (a & _ & Hr & ->).
    eexists. split; [reflexivity|]. unfold in_range. simpl. lia.
  - intros E d a b j Ha Hb Ha0 Hb0 H.
    pose proof (judgment_of_data_int_fields E d a b j Ha Hb H) as Hn.
    destruct (normalize_nonneg a b Ha0 Hb0) as (a' & b' & Hn' & Hra & Hrb).
    rewrite Hn in Hn'. injection Hn' as Ea Eb. unfold in_range. lia.
Qed.

(** A reply with 30 and 90 stays in range. *)
Lemma range_invariant_witness :
  exists j, judgment_of_data offline (JDict (reply_of 30 90)) = Ok j /\ in_range j.
Proof.
  eexists. split; [vm_compute; reflexivity|].
  eapply (proj2 (proj2 range_invariant) offline (reply_of 30 90) 30 90);
    [reflexivity|reflexivity|lia|lia|vm_compute; reflexivity].
Defined.

(** C6, as the claim has it, fails: two empty stories give 0 and 100, not
    50 and 50. *)
Lemma empty_stories_counterexample :
  exists j, get_judgment_mock [] [] [] = Ok j /\
            a_responsibility j = 0 /\ b_responsibility j = 100 /\
            (a_responsibility j =? 50) = false.
Proof. eexists. split; [vm_compute; reflexivity|]. repeat split; reflexivity. Qed.

(** C6, amended. When both stories are empty the divisor is the guard's 1
    and the fallback returns 0 and 100, which add up to 100. *)
Theorem empty_stories_split (tone : str) :
  Z.max (len [] + len []) 1 = 1 /\
  exists j, get_judgment_mock [] [] tone = Ok j /\
            a_responsibility j = 0 /\ b_responsibility j = 100 /\
            a_responsibility j + b_responsibility j = 100.
Proof.
  split; [reflexivity|]. eexists. split; [vm_compute; reflexivity|].
  repeat split; reflexivity.
Qed.

(** C7. The divisor of the fallback is never 0, so the division does not
    raise; on two empty stories the quotient is [0.0] and the result is 0
    and 100. *)
Theorem zero_length_guard (tone : str) :
  (forall story_a story_b, 1 <= Z.max (len story_a + len story_b) 1) /\
  (forall story_a story_b, exists q,
      int_truediv (len story_a) (Z.max (len story_a + len story_b) 1) = Ok q) /\
  int_truediv (len []) (Z.max (len [] + len []) 1) = Ok (S754_zero false) /\
  exists j, get_judgment_mock [] [] tone = Ok j /\
            a_responsibility j = 0 /\ b_responsibility j = 100.
Proof.
  split; [intros; lia|]. split; [|split; [reflexivity|]].
  - intros. destruct (mock_share story_a story_b) as (a & Ha & _).
    unfold share in Ha. apply bind_Ok in Ha as (q & Hq & _). eauto.
  - eexists. split; [vm_compute; reflexivity|]. split; reflexivity.
Qed.

(** Writing its default under a missing key changes no field. *)
Lemma field_insert_missing (d : gmap str json) (k k' : str) (v dflt : json) :
  d !! k = None -> (k = k' -> v = dflt) ->
  field (<[k := v]> d) k' dflt = field d k' dflt.
Proof.
  intros Hnone Hv. unfold field. destruct (decide (k = k')) as [<-|Hne].
  - rewrite lookup_insert_eq, Hnone. simpl. auto.
  - rewrite lookup_insert_ne by assumption. reflexivity.
Qed.

Lemma judgment_of_data_insert_default (E : env) (d : gmap str json) (k : str) (v : json) :
  d !! k = None ->
  (k = k_a_responsibility -> v = JInt 50) ->
  (k = k_b_responsibility -> v = JInt 50) ->
  (k = k_neutral_summary -> v = JStr []) ->
  (k = k_advice_a -> v = JStr []) ->
  (k = k_advice_b -> v = JStr []) ->
  (k = k_apology_template -> v = JStr []) ->
  (k = k_safety_flag -> v = JBool false) ->
  (k = k_safety_message -> v = JStr []) ->
  judgment_of_data E (JDict (<[k := v]> d)) = judgment_of_data E (JDict d).
Proof.
  intros Hnone H1 H2 H3 H4 H5 H6 H7 H8. unfold judgment_of_data, get.
  rewrite !field_insert_missing by assumption. reflexivity.
Qed.

Lemma strip_method_field (d : gmap str json) (k : str) (s' : str) :
  strip_method (field d k (JStr [])) = Ok s' ->
  match d !! k with
  | None => s' = []
  | Some v => exists s, v = JStr s /\ s' = strip s
  end.
Proof.
  unfold field. destruct (d !! k) as [v|]; simpl.
  - destruct v; try discriminate. intros [= <-]. eauto.
  - intros [= <-]. reflexivity.
Qed.

(** C8. A reply that lacks a text field is read as if the field were the
    empty string, one that lacks a responsibility as if it were 50, one
    that lacks the safety flag as if it were false.  In the [Judgment]
    each text field is the stripped string of the reply: the string
    without the white space around it, and the empty string for a missing
    one; the flag is the truth value of what the reply has. *)
Theorem field_defaulting (E : env) (d : gmap str json) :
  (forall k f, In (k, f) text_fields -> d !! k = None ->
     judgment_of_data E (JDict d)
     = judgment_of_data E (JDict (<[k := JStr []]> d))) /\
  (forall k, k = k_a_responsibility \/ k = k_b_responsibility -> d !! k = None ->
     judgment_of_data E (JDict d)
     = judgment_of_data E (JDict (<[k := JInt 50]> d))) /\
  (d !! k_safety_flag = None ->
     judgment_of_data E (JDict d)
     = judgment_of_data E (JDict (<[k_safety_flag := JBool false]> d))) /\
  (forall j, judgment_of_data E (JDict d) = Ok j ->
     (forall k f, In (k, f) text_fields ->
        match d !! k with
        | None => f j = []
        | Some v =>
            exists s pre post,
              v = JStr s /\ f j = strip s /\ s = pre ++ f j ++ post /\
              all_space pre /\ all_space post /\ trimmed (f j)
        end) /\
     safety_flag j = py_bool (field d k_safety_flag (JBool false)) /\
     (d !! k_advice_a = None -> advice_a j = [])).
Proof.
  split; [|split; [|split]].
  - intros k f Hin Hnone. symmetry.
    simpl in Hin.
    destruct Hin as [Hk|[Hk|[Hk|[Hk|[Hk|[]]]]]]; injection Hk as <- _;
      apply judgment_of_data_insert_default; try assumption;
      intros; try reflexivity; discriminate.
  - intros k [->| ->] Hnone; symmetry;
      apply judgment_of_data_insert_default; try assumption;
      intros; try reflexivity; discriminate.
  - intros Hnone. symmetry.
    apply judgment_of_data_insert_default; try assumption;
      intros; try reflexivity; discriminate.
  - intros j H.
    apply judgment_of_data_Ok in H
      as (a & b & _ & _ & _ & H1 & H2 & H3 & H4 & Hflag & H6).
    split; [|split; [exact Hflag|]].
    + intros k f Hin. simpl in Hin.
      assert (Hs : strip_method (field d k (JStr [])) = Ok (f j))
        by (destruct Hin as [Hk|[Hk|[Hk|[Hk|[Hk|[]]]]]];
            injection Hk as <- <-; assumption).
      apply strip_method_field in Hs.
      destruct (d !! k) as [v|]; [|exact Hs].
      destruct Hs as (s & -> & Hf).
      destruct (strip_split s) as (pre & post & Hsplit & Hpre & Hpost & Htrim).
      exists s, pre, post. rewrite Hf.
      split; [reflexivity|]. split; [reflexivity|]. split; [exact Hsplit|].
      split; [exact Hpre|]. split; [exact Hpost|exact Htrim].
    + intros Hnone. apply strip_method_field in H2.
      rewrite Hnone in H2. exact H2.
Qed.

(** A reply without [advice_a], its other texts wrapped in white space. *)
Lemma field_defaulting_witness :
  let d : gmap str json :=
    <[k_neutral_summary := JStr (lit "  a quarrel ")]>
      (<[k_advice_b := JStr (lit "call")]> (reply_of 40 60)) in
  exists j, judgment_of_data offline (JDict d) = Ok j /\
            advice_a j = [] /\ neutral_summary j = lit "a quarrel".
Proof.
  intros d.
  assert (H : judgment_of_data offline (JDict d)
              = Ok {| neutral_summary := lit "a quarrel";
                      a_responsibility := 40; b_responsibility := 60;
                      advice_a := []; advice_b := lit "call";
                      apology_template := []; safety_flag := false;
                      safety_message := [] |})
    by (vm_compute; reflexivity).
  eexists. split; [exact H|].
  destruct (proj2 (proj2 (proj2 (field_defaulting offline d))) _ H)
    as (_ & _ & Hadv).
  split; [apply Hadv; vm_compute; reflexivity|reflexivity].
Defined.

(** C9. When the LLM strategy raises on the two stories of the scenario,
    [get_judgment] returns 55 and 45 with the four fixed texts, no safety
    flag and an empty safety message; the texts, the flag and the message
    of the fallback are the same for all stories. *)
Theorem end_to_end_fallback (E : env) (tone : str) (t t' : trace) (e : exn) :
  get_judgment_llm E scenario_story_a scenario_story_b tone t = (Raise e, t') ->
  get_judgment E scenario_story_a scenario_story_b tone t =
  (Ok {| neutral_summary := mock_neutral_summary;
         a_responsibility := 55;
         b_responsibility := 45;
         advice_a := mock_advice_a;
         advice_b := mock_advice_b;
         apology_template := mock_apology_template;
         safety_flag := false;
         safety_message := [] |},
   t' ++ [PrintedFailure e]) /\
  (forall story_a story_b tone' j,
     get_judgment_mock story_a story_b tone' = Ok j ->
     neutral_summary j = mock_neutral_summary /\
     advice_a j = mock_advice_a /\
     advice_b j = mock_advice_b /\
     apology_template j = mock_apology_template /\
     safety_flag j = false /\
     safety_message j = []).
Proof.
  intros Hrun. split.
  - unfold get_judgment, try_except. rewrite Hrun.
    unfold mbind, M_bind, emit, lift. simpl. f_equal.
  - intros story_a story_b tone' j Hj.
    destruct (get_judgment_mock_Ok story_a story_b tone') as (a & _ & _ & Hj').
    rewrite Hj' in Hj. injection Hj as <-. simpl. repeat split.
Qed.

(** The service cannot be reached. *)
Lemma end_to_end_fallback_witness :
  exists j t',
    get_judgment offline scenario_story_a scenario_story_b (lit "Gentle") []
    = (Ok j, t') /\
    a_responsibility j = 55 /\ b_responsibility j = 45.
Proof.
  pose proof (end_to_end_fallback offline (lit "Gentle") [] _ APIConnectionError
                eq_refl) as [H _].
  eexists _, _. split; [exact H|split; reflexivity].
Defined.

(** C10, as the claim has it, fails: [2^53 + 1] and [99 - 2^53] add up to
    100 and the first comes back as [2^53 + 2]. *)
Lemma normalization_identity_counterexample :
  9007199254740993 + -9007199254740893 = 100 /\
  exists j,
    judgment_of_data offline
      (JDict (reply_of 9007199254740993 (-9007199254740893))) = Ok j /\
    a_responsibility j = 9007199254740994 /\
    b_responsibility j = -9007199254740894.
Proof.
  split; [reflexivity|]. eexists. split; [vm_compute; reflexivity|].
  split; reflexivity.
Qed.

(** C10, amended. Two integers of the reply that add up to 100, the first
    at most [2^50] in magnitude, are normalized to themselves: the
    normalization returns them and the [Judgment] holds them. *)
Theorem normalization_identity (E : env) (d : gmap str json) (a b : Z) (j : Judgment) :
  field d k_a_responsibility (JInt 50) = JInt a ->
  field d k_b_responsibility (JInt 50) = JInt b ->
  a + b = 100 -> - 2 ^ 50 <= a <= 2 ^ 50 ->
  judgment_of_data E (JDict d) = Ok j ->
  normalize a b = Ok (a, b) /\
  a_responsibility j = a /\ b_responsibility j = b.
Proof.
  intros Ha Hb Hsum Hrange H.
  pose proof (judgment_of_data_int_fields E d a b j Ha Hb H) as Hn.
  assert (Hid : normalize a b = Ok (a, b)).
  { unfold normalize. rewrite Hsum. change (100 =? 0) with false. cbv iota.
    rewrite (share_100_identity a Hrange). simpl. do 2 f_equal. lia. }
  rewrite Hid in Hn. injection Hn as <- <-. auto.
Qed.

(** A reply with 35 and 65 is kept as it is. *)
Lemma normalization_identity_witness :
  exists j, judgment_of_data offline (JDict (reply_of 35 65)) = Ok j /\
            a_responsibility j = 35 /\ b_responsibility j = 65.
Proof.
  eexists. split; [vm_compute; reflexivity|].
  eapply (normalization_identity offline (reply_of 35 65) 35 65);
    [reflexivity|reflexivity|reflexivity|lia|vm_compute; reflexivity].
Defined.

(** ** The visit of the pages *)

Lemma script_idle (U : ui_env) (w : world) :
  state w = fresh_session ->
  script U None w = (Ok Completed, with_page [InputForm] w).
Proof. destruct w as [s l c sl p]. simpl. intros ->. reflexivity. Qed.

Lemma script_first_load (U : ui_env) :
  script U None new_world
  = (Ok Completed, with_page [InputForm] (with_state fresh_session new_world)).
Proof. reflexivity. Qed.

Lemma script_reject (U : ui_env) (w : world) (story_a story_b tone : str) :
  state w = fresh_session -> story_a = [] \/ story_b = [] ->
  script U (Some (story_a, story_b, tone)) w
  = (Ok Completed, with_page [InputForm; Warning] w).
Proof.
  destruct w as [s l c sl p]. simpl. intros -> [-> | ->].
  - reflexivity.
  - destruct story_a; reflexivity.
Qed.

Lemma script_accept (U : ui_env) (w : world) (story_a story_b tone : str) :
  state w = fresh_session -> story_a <> [] -> story_b <> [] ->
  script U (Some (story_a, story_b, tone)) w
  = (Ok Rerun, with_page [InputForm]
                 (with_state (thinking_session story_a story_b tone) w)).
Proof.
  destruct w as [s l c sl p]. simpl. intros -> Ha Hb.
  destruct story_a; [congruence|]. destruct story_b; [congruence|]. reflexivity.
Qed.

Lemma script_results (U : ui_env) (w : world) (k : Z) (j : Judgment)
    (story_a story_b tone : str) :
  state w = results_session k j story_a story_b tone -> 1 <= k <= 3 ->
  script U None w = (Ok Completed, with_page (results_page k j) w).
Proof.
  destruct w as [s l c sl p]. simpl. intros -> Hk.
  assert (Hcases : k = 1 \/ k = 2 \/ k = 3) by lia.
  destruct Hcases as [-> | [-> | ->]]; destruct j as [? ? ? ? ? ? [] ?]; reflexivity.
Qed.

(** One call of [get_judgment]: it returns, it adds one request to the
    log, with the arguments as they are, and prints after it. *)
Lemma get_judgment_log (E : env) (story_a story_b tone : str) (t : trace) :
  exists j rest,
    get_judgment E story_a story_b tone t
    = (Ok j, t ++ SentRequest (request_of story_a story_b tone) :: rest) /\
    requests_sent rest = O /\
    a_responsibility j + b_responsibility j = 100.
Proof.
  unfold get_judgment, try_except. rewrite get_judgment_llm_run.
  fold (request_of story_a story_b tone).
  destruct (_ ≫= first_content) as [raw|e].
  - destruct (json_loads E raw ≫= judgment_of_data E) as [j|e] eqn:Hj.
    + exists j, [PrintedRaw raw]. rewrite <- app_assoc. split; [reflexivity|].
      split; [reflexivity|].
      apply bind_Ok in Hj as (data & _ & Hj).
      destruct (judgment_of_data_dict _ _ _ Hj) as [d ->].
      apply judgment_of_data_Ok in Hj as (a & b & _ & _ & Hn & _).
      apply normalize_Ok in Hn as [_ Hb]. lia.
    + destruct (get_judgment_mock_Ok story_a story_b tone) as (a & _ & _ & Hm).
      unfold mbind, M_bind, emit, lift. rewrite Hm.
      eexists _, [PrintedRaw raw; PrintedFailure e]. rewrite <- !app_assoc.
      split; [reflexivity|]. split; [reflexivity|]. simpl. lia.
  - destruct (get_judgment_mock_Ok story_a story_b tone) as (a & _ & _ & Hm).
    unfold mbind, M_bind, emit, lift. rewrite Hm.
    eexists _, [PrintedFailure e]. rewrite <- !app_assoc.
    split; [reflexivity|]. split; [reflexivity|]. simpl. lia.
Qed.

(** The wait is the [int] 0 or a [float] above 0. *)
Lemma remaining_wait_Ok (elapsed : float) :
  exists d, remaining_wait elapsed = Ok d /\
    (d = Seconds 0 \/
     exists x, d = FloatSeconds x /\ SFltb (S754_zero false) x = true).
Proof.
  unfold remaining_wait, int_sub_float.
  change (float_of_int 10) with (Ok (S754_finite false 5629499534213120 (-49))).
  cbn [mbind result_bind].
  destruct (SFltb _ _) eqn:Hlt; eexists; (split; [reflexivity|]); eauto.
Qed.

Lemma script_thinking (U : ui_env) (w : world) (story_a story_b tone : str)
    (j : Judgment) (l' : trace) (d : duration) :
  state w = thinking_session story_a story_b tone ->
  get_judgment (oracle U) story_a story_b tone (log w) = (Ok j, l') ->
  remaining_wait (SFsub prec emax (time_time U (S (clock_reads w)))
                    (time_time U (clock_reads w))) = Ok d ->
  script U None w
  = (Ok Rerun,
     {| state := results_session 1 j story_a story_b tone;
        log := l';
        clock_reads := S (S (clock_reads w));
        sleeps := sleeps w ++ thinking_sleeps U d;
        page := thinking_page U |}).
Proof.
  destruct w as [s l c sl p]. simpl. intros -> Hj Hd.
  unfold script, thinking, thinking_page, thinking_sleeps.
  destruct (loading_video U);
    cbv -[get_judgment remaining_wait SFsub prec emax app oracle time_time]; rewrite Hj;
    cbv -[get_judgment remaining_wait SFsub prec emax app oracle time_time]; rewrite Hd;
    rewrite <- ?app_assoc; reflexivity.
Qed.

Lemma interact_load (U : ui_env) :
  runs U 3 None new_world
  = (Ok Completed, with_page [InputForm] (with_state fresh_session new_world)).
Proof. reflexivity. Qed.

Lemma interact_reject (U : ui_env) (w : world) (story_a story_b tone : str) :
  state w = fresh_session -> story_a = [] \/ story_b = [] ->
  interact U (SubmitForm story_a story_b tone) w
  = (Ok Completed, with_page [InputForm; Warning] w).
Proof.
  intros Hs Hempty. unfold interact, runs.
  unfold mbind at 1, UI_bind. rewrite script_reject by assumption. reflexivity.
Qed.

Lemma interact_accept (U : ui_env) (w : world) (story_a story_b tone : str)
    (j : Judgment) (l' : trace) (d : duration) :
  state w = fresh_session -> story_a <> [] -> story_b <> [] ->
  get_judgment (oracle U) story_a story_b tone (log w) = (Ok j, l') ->
  remaining_wait (SFsub prec emax (time_time U (S (clock_reads w)))
                    (time_time U (clock_reads w))) = Ok d ->
  interact U (SubmitForm story_a story_b tone) w
  = (Ok Completed,
     {| state := results_session 1 j story_a story_b tone;
        log := l';
        clock_reads := S (S (clock_reads w));
        sleeps := sleeps w ++ thinking_sleeps U d;
        page := results_page 1 j |}).
Proof.
  intros Hs Ha Hb Hj Hd. unfold interact, runs.
  unfold mbind at 1, UI_bind. rewrite script_accept by assumption.
  unfold mbind at 1, UI_bind.
  rewrite (script_thinking U _ story_a story_b tone j l' d) by (assumption || reflexivity).
  unfold mbind at 1, UI_bind.
  rewrite (script_results U _ 1 j story_a story_b tone) by (reflexivity || lia).
  reflexivity.
Qed.

Lemma interact_step (U : ui_env) (w : world) (cb : callback) (k k' : Z)
    (j : Judgment) (story_a story_b tone : str) :
  state w = results_session k j story_a story_b tone ->
  (cb = NextStep /\ k' = Z.min 3 (k + 1) \/ cb = PrevStep /\ k' = Z.max 1 (k - 1)) ->
  1 <= k' <= 3 ->
  interact U (Click cb) w
  = (Ok Completed,
     with_page (results_page k' j)
       (with_state (results_session k' j story_a story_b tone) w)).
Proof.
  intros Hs Hcb Hk'. unfold interact, runs.
  assert (Hcall : run_callback cb w
                  = (Ok tt, with_state (results_session k' j story_a story_b tone) w)).
  { destruct w as [s l c sl p]. simpl in Hs. subst s.
    destruct Hcb as [[-> ->] | [-> ->]]; reflexivity. }
  unfold mbind at 1, UI_bind. rewrite Hcall.
  unfold mbind at 1, UI_bind.
  rewrite (script_results U _ k' j story_a story_b tone) by (reflexivity || lia).
  destruct w; reflexivity.
Qed.

Lemma interact_reset (U : ui_env) (w : world) :
  interact U (Click ResetCase) w
  = (Ok Completed, with_page [InputForm] (with_state fresh_session w)).
Proof. destruct w as [[ph st jd pa pb pt] l c sl p]. reflexivity. Qed.

(** The buttons of the three pages of results. *)
Lemma results_page_buttons (k : Z) (j : Judgment) (cb : callback) :
  1 <= k <= 3 ->
  In (Button cb) (results_page k j) <->
  match cb with
  | NextStep => k < 3
  | PrevStep => 1 < k
  | ResetCase => True
  end.
Proof.
  intros Hk. assert (Hcases : k = 1 \/ k = 2 \/ k = 3) by lia.
  destruct Hcases as [-> | [-> | ->]]; destruct j as [? ? ? ? ? ? [] ?];
    destruct cb; cbn; split; intros H; try lia; try exact I;
    try (exfalso; repeat (destruct H as [H|H]; try discriminate H); assumption);
    repeat ((left; reflexivity) || right).
Qed.

Lemma results_page_no_form (k : Z) (j : Judgment) :
  1 <= k <= 3 -> ~ In InputForm (results_page k j).
Proof.
  intros Hk. assert (Hcases : k = 1 \/ k = 2 \/ k = 3) by lia.
  destruct Hcases as [-> | [-> | ->]]; destruct j as [? ? ? ? ? ? [] ?];
    cbn; intros H; repeat (destruct H as [H|H]; try discriminate H); auto.
Qed.

Lemma thinking_sleeps_good (U : ui_env) (d : duration) :
  good_wait d -> Forall good_wait (thinking_sleeps U d).
Proof.
  intros Hd. unfold thinking_sleeps.
  destruct (loading_video U); repeat constructor; simpl; try lia; exact Hd.
Qed.

(** One enabled action, from a page of the visit: it completes, on a page
    of the visit again. *)
Lemma visit_step (U : ui_env) (w : world) (act : user_action) :
  at_input w \/ at_results U w -> enabled w act ->
  exists w',
    interact U act w = (Ok Completed, w') /\
    (at_input w' \/ at_results U w') /\
    log_grows act (log w) (log w') /\
    exists ds, sleeps w' = sleeps w ++ ds /\ Forall good_wait ds.
Proof.
  intros [[Hs Hp] | (k & j & a & b & t & l & l' & Hk & Hs & Ha & Hb & Hj & Hp)] Hen.
  - destruct act as [cb | story_a story_b tone]; simpl in Hen.
    { exfalso. destruct Hp as [Hp|Hp]; rewrite Hp in Hen; simpl in Hen;
        repeat (destruct Hen as [Hen|Hen]; try discriminate Hen); assumption. }
    destruct (decide (story_a = [])) as [Ea|Ea];
      [|destruct (decide (story_b = [])) as [Eb|Eb]].
    + exists (with_page [InputForm; Warning] w).
      split; [apply interact_reject; auto|]. split; [left; split; auto|].
      split; [subst; reflexivity|]. exists []. rewrite app_nil_r. auto.
    + exists (with_page [InputForm; Warning] w).
      split; [apply interact_reject; auto|]. split; [left; split; auto|].
      split; [|exists []; rewrite app_nil_r; auto].
      subst. simpl. rewrite andb_false_r. reflexivity.
    + destruct (get_judgment_log (oracle U) story_a story_b tone (log w))
        as (j & rest & Hj & Hrest & _).
      destruct (remaining_wait_Ok
                  (SFsub prec emax (time_time U (S (clock_reads w)))
                     (time_time U (clock_reads w)))) as (d & Hd & Hgood).
      eexists. split; [eapply interact_accept; eassumption|].
      split; [|split].
      * right. eexists 1, j, story_a, story_b, tone, (log w), _.
        repeat split; try eassumption; try reflexivity; lia.
      * simpl. rewrite !bool_decide_eq_false_2 by assumption. simpl.
        exists rest. auto.
      * exists (thinking_sleeps U d). split; [reflexivity|].
        apply thinking_sleeps_good.
        destruct Hgood as [-> | (x & -> & Hx)]; simpl; [lia|exact Hx].
  - destruct act as [cb | story_a story_b tone]; simpl in Hen.
    2: { exfalso. rewrite Hp in Hen. exact (results_page_no_form k j Hk Hen). }
    rewrite Hp in Hen. apply results_page_buttons in Hen; [|exact Hk].
    destruct cb.
    + exists (with_page (results_page (k + 1) j)
                (with_state (results_session (k + 1) j a b t) w)).
      split; [apply (interact_step U w NextStep k); auto; [left; split; auto|]; lia|].
      split; [|split; [reflexivity|exists []; rewrite app_nil_r; auto]].
      right. exists (k + 1), j, a, b, t, l, l'. repeat split; auto; lia.
    + exists (with_page (results_page (k - 1) j)
                (with_state (results_session (k - 1) j a b t) w)).
      split; [apply (interact_step U w PrevStep k); auto; [right; split; auto|]; lia|].
      split; [|split; [reflexivity|exists []; rewrite app_nil_r; auto]].
      right. exists (k - 1), j, a, b, t, l, l'. repeat split; auto; lia.
    + exists (with_page [InputForm] (with_state fresh_session w)).
      split; [apply interact_reset|].
      split; [left; split; auto|].
      split; [reflexivity|exists []; rewrite app_nil_r; auto].
Qed.

Lemma cases_opened_app (acts acts' : list user_action) :
  cases_opened (acts ++ acts') = (cases_opened acts + cases_opened acts')%nat.
Proof. induction acts as [|a acts IH]; simpl; [reflexivity|]. rewrite IH. lia. Qed.

Lemma no_requests_have_stories (rest : trace) :
  requests_sent rest = O -> Forall request_has_stories rest.
Proof.
  induction rest as [|[r|s|e] rest IH]; simpl; intros H;
    constructor; simpl; auto; discriminate.
Qed.

(** Every page of a visit is the form or a page of results. *)
Lemma visit_pages (U : ui_env) (acts : list user_action) (w : world) :
  visit U acts w -> at_input w \/ at_results U w.
Proof.
  induction 1 as [w Hload | acts act w w' Hv IH Hen Hact].
  - rewrite interact_load in Hload. injection Hload as <-.
    left. split; [reflexivity|left; reflexivity].
  - destruct (visit_step U w act IH Hen) as (w1 & Hw1 & Hinv & _).
    rewrite Hw1 in Hact. injection Hact as <-. exact Hinv.
Qed.

Lemma first_page_visit (U : ui_env) : visit U [] first_page.
Proof. apply visit_load. reflexivity. Qed.





(** What an action adds to the log has stories; it is one request when
    the action is an accepted submission, none otherwise. *)
Lemma log_grows_requests (act : user_action) (l l' : trace) :
  log_grows act l l' ->
  exists new, l' = l ++ new /\ Forall request_has_stories new /\
              requests_sent new = (if accepted act then 1 else 0)%nat.
Proof.
  destruct act as [cb | a b t]; simpl.
  - intros ->. exists []. rewrite app_nil_r. repeat split; constructor.
  - destruct (bool_decide (a = [])) eqn:Ea; simpl.
    { intros ->. exists []. rewrite app_nil_r. repeat split; constructor. }
    destruct (bool_decide (b = [])) eqn:Eb; simpl.
    { intros ->. exists []. rewrite app_nil_r. repeat split; constructor. }
    intros (rest & -> & Hrest). eexists. split; [reflexivity|].
    apply bool_decide_eq_false in Ea. apply bool_decide_eq_false in Eb.
    split; [|simpl; lia].
    constructor; [split; assumption|]. apply no_requests_have_stories, Hrest.
Qed.

(** X3. The oracle is never asked about an empty story: every request
    that a visit sends carries two stories that are not empty. *)
Theorem oracle_gets_both_stories (U : ui_env) (acts : list user_action) (w : world)
    (r : chat_request) :
  visit U acts w -> In (SentRequest r) (log w) ->
  req_story_a r <> [] /\ req_story_b r <> [].
Proof.
  intros Hv. revert r.
  induction Hv as [w Hload | acts act w w' Hv IH Hen Hact]; intros r Hin.
  - rewrite interact_load in Hload. injection Hload as <-. destruct Hin.
  - destruct (visit_step U w act (visit_pages U acts w Hv) Hen)
      as (w1 & Hw1 & _ & Hlog & _).
    rewrite Hw1 in Hact. injection Hact as <-.
    apply log_grows_requests in Hlog as (new & Hnew & Hstories & _).
    rewrite Hnew in Hin. apply in_app_or in Hin as [Hin|Hin]; [auto|].
    rewrite Forall_forall in Hstories.
    exact (Hstories _ (proj2 (list_elem_of_In _ _) Hin)).
Qed.

(** X4. A visit sends one request for each accepted submission and none
    for anything else: refused submissions, steps back and forth and
    resets do not reach the oracle. *)
Theorem one_request_per_case (U : ui_env) (acts : list user_action) (w : world) :
  visit U acts w -> requests_sent (log w) = cases_opened acts.
Proof.
  induction 1 as [w Hload | acts act w w' Hv IH Hen Hact].
  - rewrite interact_load in Hload. injection Hload as <-. reflexivity.
  - destruct (visit_step U w act (visit_pages U acts w Hv) Hen)
      as (w1 & Hw1 & _ & Hlog & _).
    rewrite Hw1 in Hact. injection Hact as <-.
    apply log_grows_requests in Hlog as (new & Hnew & _ & Hcount).
    rewrite Hnew, requests_sent_app, cases_opened_app, IH, Hcount. simpl. lia.
Qed.

(** X5. A submission with an empty story is refused: the page shows the
    warning under the form, and the session, the log, the clock and the
    waits are as before. *)
Theorem empty_story_refused (U : ui_env) (acts : list user_action) (w : world)
    (story_a story_b tone : str) :
  visit U acts w -> enabled w (SubmitForm story_a story_b tone) ->
  story_a = [] \/ story_b = [] ->
  interact U (SubmitForm story_a story_b tone) w
  = (Ok Completed, with_page [InputForm; Warning] w).
Proof.
  intros Hv Hen Hempty. apply interact_reject; [|exact Hempty].
  destruct (visit_pages U acts w Hv)
    as [[Hs _] | (k & j & a & b & t & l & l' & Hk & _ & _ & _ & _ & Hp)];
    [exact Hs|exfalso].
  simpl in Hen. rewrite Hp in Hen. exact (results_page_no_form k j Hk Hen).
Qed.

(** X6. No wait of a visit is negative: each is an [int] from 0 on or a
    [float] above 0, never a negative number and never a NaN, for which
    [time.sleep] raises, whatever the clock shows. *)
Theorem waits_are_not_negative (U : ui_env) (acts : list user_action) (w : world)
    (d : duration) :
  visit U acts w -> In d (sleeps w) -> good_wait d.
Proof.
  intros Hv. revert d.
  induction Hv as [w Hload | acts act w w' Hv IH Hen Hact]; intros d Hin.
  - rewrite interact_load in Hload. injection Hload as <-. destruct Hin.
  - destruct (visit_step U w act (visit_pages U acts w Hv) Hen)
      as (w1 & Hw1 & _ & _ & ds & Hds & Hgood).
    rewrite Hw1 in Hact. injection Hact as <-.
    rewrite Hds in Hin. apply in_app_or in Hin as [Hin|Hin]; [auto|].
    rewrite Forall_forall in Hgood.
    exact (Hgood _ (proj2 (list_elem_of_In _ _) Hin)).
Qed.

Lemma after_scenario_visit :
  visit no_service [SubmitForm scenario_story_a scenario_story_b tone_gentle]
    after_scenario.
Proof.
  apply (visit_act no_service [] _ first_page);
    [apply first_page_visit|left; reflexivity|vm_compute; reflexivity].
Qed.

(** The request sent for the scenario. *)
Lemma oracle_gets_both_stories_witness :
  scenario_story_a <> [] /\ scenario_story_b <> [].
Proof.
  exact (oracle_gets_both_stories no_service _ after_scenario
           (request_of scenario_story_a scenario_story_b tone_gentle)
           after_scenario_visit (or_introl eq_refl)).
Defined.

(** One submission, one request. *)
Lemma one_request_per_case_witness :
  requests_sent (log after_scenario) = 1%nat.
Proof. exact (one_request_per_case no_service _ _ after_scenario_visit). Defined.

(** A submission without the first story. *)
Lemma empty_story_refused_witness :
  interact no_service (SubmitForm [] scenario_story_b tone_gentle) first_page
  = (Ok Completed, with_page [InputForm; Warning] first_page).
Proof.
  exact (empty_story_refused no_service [] first_page [] scenario_story_b tone_gentle
           (first_page_visit no_service) (or_introl eq_refl) (or_introl eq_refl)).
Defined.

(** With a clock that stands still the wait is the ten seconds of the video. *)
Lemma waits_are_not_negative_witness :
  good_wait (FloatSeconds (S754_finite false 5629499534213120 (-49))).
Proof.
  exact (waits_are_not_negative no_service _ after_scenario _
           after_scenario_visit (or_introl eq_refl)).
Defined.

(** X7. On a page of results the button forth is there below step 3 and
    the button back above step 1.  A step forth moves to the next step
    with the same judgment; the step back after it gives the world as it
    was: navigation does not reach the oracle, the clock or the waits. *)
Theorem step_forth_and_back (U : ui_env) (acts : list user_action) (w : world)
    (k : Z) (j : Judgment) (story_a story_b tone : str) :
  visit U acts w -> state w = results_session k j story_a story_b tone ->
  (enabled w (Click NextStep) <-> k < 3) /\
  (enabled w (Click PrevStep) <-> 1 < k) /\
  (k < 3 -> exists w1,
     interact U (Click NextStep) w = (Ok Completed, w1) /\
     state w1 = results_session (k + 1) j story_a story_b tone /\
     interact U (Click PrevStep) w1 = (Ok Completed, w)).
Proof.
  intros Hv Hs.
  destruct (visit_pages U acts w Hv)
    as [[Hs' _] | (k' & j' & a & b & t & l & l' & Hk & Hs' & _ & _ & _ & Hp)];
    rewrite Hs in Hs'; [discriminate Hs'|].
  injection Hs' as <- <- <- <- <-.
  split; [|split].
  - simpl. rewrite Hp. apply (results_page_buttons k j NextStep Hk).
  - simpl. rewrite Hp. apply (results_page_buttons k j PrevStep Hk).
  - intros Hlt.
    exists (with_page (results_page (k + 1) j)
              (with_state (results_session (k + 1) j story_a story_b tone) w)).
    split; [|split; [reflexivity|]].
    + apply (interact_step U w NextStep k); auto; [left; split; auto|]; lia.
    + rewrite (interact_step U _ PrevStep (k + 1) k j story_a story_b tone);
        [|reflexivity|right; split; [reflexivity|lia]|lia].
      destruct w as [s l0 c sl p]. simpl in Hs, Hp. subst s p. reflexivity.
Qed.

(** From the verdict of the scenario to the chart and back. *)
Lemma step_forth_and_back_witness :
  exists w1,
    interact no_service (Click NextStep) after_scenario = (Ok Completed, w1) /\
    interact no_service (Click PrevStep) w1 = (Ok Completed, after_scenario).
Proof.
  destruct (step_forth_and_back no_service _ after_scenario 1 _ _ _ _
              after_scenario_visit eq_refl) as (_ & _ & Hforth).
  destruct (Hforth ltac:(lia)) as (w1 & H1 & _ & H2). eauto.
Defined.

(** X8. The button for a new case works from any session: after it the
    session and the page are those of a first load (phase input, step 0,
    no judgment, nothing pending, the form alone on the page), and the
    log, the clock and the waits are as before. *)
Theorem reset_starts_over (U : ui_env) (w : world) :
  exists w0,
    runs U 3 None new_world = (Ok Completed, w0) /\
    interact U (Click ResetCase) w
    = (Ok Completed, with_page (page w0) (with_state (state w0) w)) /\
    judgment (state w0) = Some None /\
    pending_story_a (state w0) = None /\ pending_story_b (state w0) = None /\
    pending_tone (state w0) = None.
Proof.
  eexists. split; [apply interact_load|].
  split; [apply interact_reset|]. repeat split.
Qed.

(** X9. The value of the progress bar is the step over 3 as a [float]
    above 0 and at most 1, on every page of a visit. *)
Theorem progress_in_range (U : ui_env) (acts : list user_action) (w : world)
    (v : float) :
  visit U acts w -> In (Progress v) (page w) ->
  SFltb (S754_zero false) v = true /\ SFleb v one = true.
Proof.
  intros Hv Hin.
  destruct (visit_pages U acts w Hv)
    as [[_ Hp] | (k & j & a & b & t & l & l' & Hk & _ & _ & _ & _ & Hp)].
  - exfalso. destruct Hp as [Hp|Hp]; rewrite Hp in Hin; simpl in Hin;
      repeat (destruct Hin as [Hin|Hin]; try discriminate Hin); assumption.
  - rewrite Hp in Hin. assert (Hcases : k = 1 \/ k = 2 \/ k = 3) by lia.
    destruct Hcases as [-> | [-> | ->]]; destruct j as [? ? ? ? ? ? [] ?];
      cbn in Hin;
      repeat (destruct Hin as [Hin|Hin]; try discriminate Hin);
      try contradiction; injection Hin as <-; split; reflexivity.
Qed.

(** Step 1 of 3. *)
Lemma progress_in_range_witness :
  SFltb (S754_zero false) (S754_finite false 6004799503160661 (-54)) = true /\
  SFleb (S754_finite false 6004799503160661 (-54)) one = true.
Proof.
  exact (progress_in_range no_service _ after_scenario _ after_scenario_visit
           (or_intror (or_introl eq_refl))).
Defined.

(** With a service that cannot be reached, the judgment is the one of the
    fallback. *)
Lemma get_judgment_service_down (E : env) (story_a story_b tone : str)
    (t t' : trace) (j : Judgment) :
  (forall r n, exists e, chat_create E r n = Raise e) ->
  get_judgment E story_a story_b tone t = (Ok j, t') ->
  get_judgment_mock story_a story_b tone = Ok j.
Proof.
  intros Hdown. unfold get_judgment, try_except. rewrite get_judgment_llm_run.
  destruct (Hdown (request_of story_a story_b tone) (requests_sent t)) as [e He].
  unfold request_of in He. rewrite He. simpl.
  unfold mbind, M_bind, emit, lift.
  destruct (get_judgment_mock story_a story_b tone) as [j'|e']; intros [= <- _];
    reflexivity.
Qed.

(** X10. While the service cannot be reached, no page of a visit shows a
    safety notice, whatever the stories say. *)
Theorem no_safety_notice_without_service (U : ui_env) (acts : list user_action)
    (w : world) :
  (forall r n, exists e, chat_create (oracle U) r n = Raise e) ->
  visit U acts w -> safety_notices (page w) = [].
Proof.
  intros Hdown Hv.
  destruct (visit_pages U acts w Hv)
    as [[_ Hp] | (k & j & a & b & t & l & l' & Hk & _ & _ & _ & Hj & Hp)].
  - destruct Hp as [Hp|Hp]; rewrite Hp; reflexivity.
  - apply (get_judgment_service_down _ _ _ _ _ _ _ Hdown) in Hj.
    destruct (get_judgment_mock_Ok a b t) as (x & _ & _ & Hm).
    rewrite Hm in Hj. injection Hj as <-.
    rewrite Hp. assert (Hcases : k = 1 \/ k = 2 \/ k = 3) by lia.
    destruct Hcases as [-> | [-> | ->]]; reflexivity.
Qed.

(** The verdict of the scenario. *)
Lemma no_safety_notice_without_service_witness :
  safety_notices (page after_scenario) = [].
Proof.
  exact (no_safety_notice_without_service no_service _ after_scenario
           (fun r n => ex_intro _ APIConnectionError eq_refl) after_scenario_visit).
Defined.

Lemma Pos_iter_xO (m d : positive) :
  Z.pos (Pos.iter xO m d) = Z.pos m * 2 ^ Z.pos d.
Proof.
  rewrite (Pos.iter_swap_gen _ _ Z.pos xO (Z.mul 2)) by reflexivity.
  rewrite <- Z.shiftl_mul_pow2 by lia. reflexivity.
Qed.

(** No result of rounding with the negative sign is above 0. *)
Lemma binary_round_negative (m : positive) (e : Z) :
  SFltb (S754_zero false) (binary_round prec emax true m e) = false.
Proof.
  unfold binary_round. destruct (shl_align m e _) as [mz ez].
  unfold binary_round_aux.
  destruct (shr_fexp prec emax (Z.pos mz) ez loc_Exact) as [mrs' e'].
  destruct (shr_fexp prec emax _ e' loc_Exact) as [mrs'' e''].
  destruct (shr_m mrs''); [reflexivity| |reflexivity].
  destruct (e'' <=? emax - prec); reflexivity.
Qed.

(** A valid float with an exponent above the one of [10.0] has a full
    mantissa. *)
Lemma valid_mantissa_full (m : positive) (e : Z) :
  bounded prec emax m e = true -> -49 < e -> 2 ^ 52 <= Z.pos m.
Proof.
  unfold bounded, canonical_mantissa. intros H He.
  apply andb_prop in H as [H _]. apply Z.eqb_eq in H.
  pose proof (Zdigits2_nonneg_bounds (Z.pos m) ltac:(lia)) as [Hlo _].
  simpl Zdigits2 in Hlo.
  assert (Hd : Z.pos (digits2_pos m) = 53)
    by (unfold fexp, SpecFloat.emin, prec, emax in H; lia).
  rewrite Hd in Hlo. exact Hlo.
Qed.

(** X11. When the oracle took ten seconds or more, the thinking phase
    adds no wait: for every valid [float] [elapsed] with
    [10.0 <= elapsed], [max(0, video_duration - elapsed)] is the [int] 0. *)
Theorem no_wait_after_slow_oracle (elapsed : float) :
  valid_binary prec emax elapsed = true ->
  SFleb ten elapsed = true ->
  remaining_wait elapsed = Ok (Seconds 0).
Proof.
  intros Hvalid Hle. unfold remaining_wait, int_sub_float.
  change (float_of_int 10) with (Ok ten). cbn [mbind result_bind].
  assert (Hnot : SFltb (S754_zero false) (SFsub prec emax ten elapsed) = false);
    [|rewrite Hnot; reflexivity].
  destruct elapsed as [s|s| |s m e]; try discriminate Hle.
  - destruct s; [discriminate Hle|reflexivity].
  - destruct s; [discriminate Hle|]. simpl in Hvalid.
    unfold SFleb, SFcompare, ten in Hle. unfold ten, SFsub.
    destruct (Z.compare_spec (-49) e) as [He|He|He]; try discriminate Hle.
    + subst e. simpl Z.min. simpl shl_align. simpl fst. simpl cond_Zopp.
      assert (Hm : 5629499534213120 <= Z.pos m).
      { rewrite Pos.compare_cont_spec in Hle. unfold Pos.switch_Eq in Hle.
        destruct (Pos.compare_spec 5629499534213120 m) as [Hc|Hc|Hc];
          try discriminate Hle; lia. }
      destruct (Z.pos 5629499534213120 - Z.pos m) as [|p|p] eqn:Hd; try lia;
        [reflexivity|apply binary_round_negative].
    + pose proof (valid_mantissa_full m e Hvalid He) as Hfull.
      replace (Z.min (-49) e) with (-49) by lia.
      unfold shl_align. rewrite Z.sub_diag.
      destruct (-49 - e) as [|d|d] eqn:Hd; try lia.
      simpl fst. simpl cond_Zopp. rewrite Pos_iter_xO.
      assert (H2 : 2 <= 2 ^ Z.pos d)
        by (change 2 with (2 ^ 1) at 1; apply Z.pow_le_mono_r; lia).
      destruct (Z.pos 5629499534213120 - Z.pos m * 2 ^ Z.pos d) as [|p|p] eqn:Hdiff;
        [reflexivity|exfalso; nia|apply binary_round_negative].
Qed.

(** An oracle that took twelve seconds. *)
Lemma no_wait_after_slow_oracle_witness :
  remaining_wait (S754_finite false 6755399441055744 (-49)) = Ok (Seconds 0).
Proof.
  exact (no_wait_after_slow_oracle (S754_finite false 6755399441055744 (-49))
           eq_refl eq_refl).
Defined.

Lemma at_the_chart_visit :
  visit no_service
    [SubmitForm scenario_story_a scenario_story_b tone_gentle; Click NextStep]
    at_the_chart.
Proof.
  apply (visit_act no_service [_] _ after_scenario);
    [apply after_scenario_visit| |vm_compute; reflexivity].
  right. right. right. right. left. reflexivity.
Qed.



(** X13. The two numbers of a chart add up to 100, on every page of a
    visit, whatever the service replied. *)
Theorem chart_adds_up (U : ui_env) (acts : list user_action) (w : world)
    (a b : Z) :
  visit U acts w -> In (Chart a b) (page w) -> a + b = 100.
Proof.
  intros Hv Hin.
  destruct (visit_pages U acts w Hv)
    as [[_ Hp] | (k & j & sa & sb & t & l & l' & Hk & _ & _ & _ & Hj & Hp)].
  - exfalso. destruct Hp as [Hp|Hp]; rewrite Hp in Hin; simpl in Hin;
      repeat (destruct Hin as [Hin|Hin]; try discriminate Hin); assumption.
  - destruct (get_judgment_log (oracle U) sa sb t l) as (j' & rest & Hj' & _ & Hsum).
    rewrite Hj in Hj'. injection Hj' as <- _.
    rewrite Hp in Hin. assert (Hcases : k = 1 \/ k = 2 \/ k = 3) by lia.
    destruct Hcases as [-> | [-> | ->]]; destruct j as [? ? ? ? ? ? [] ?];
      cbn in Hin;
      repeat (destruct Hin as [Hin|Hin]; try discriminate Hin);
      try contradiction; injection Hin as <- <-; exact Hsum.
Qed.

(** The chart of the scenario. *)
Lemma chart_adds_up_witness :
  In (Chart 55 45) (page at_the_chart) /\ 55 + 45 = 100.
Proof.
  assert (Hin : In (Chart 55 45) (page at_the_chart))
    by (right; right; right; left; reflexivity).
  split; [exact Hin|].
  exact (chart_adds_up no_service _ at_the_chart 55 45 at_the_chart_visit Hin).
Defined.

(** ** The edges of the two strategies *)

Lemma Zdigits2_mul_pow2 (a k : Z) :
  0 < a -> 0 <= k -> Zdigits2 (a * 2 ^ k) = Zdigits2 a + k.
Proof.
  intros Ha Hk. pose proof (Zdigits2_nonneg_bounds a Ha) as [Hlo Hhi].
  pose proof (Zdigits2_pos a Ha). pow2_pos k as Hp.
  apply Zdigits2_eq; [|lia].
  replace (Zdigits2 a + k - 1) with (Zdigits2 a - 1 + k) by lia.
  rewrite !Z.pow_add_r by lia. nia.
Qed.

(** The quotient of an integer by itself times a power of two is that
    power of two, exactly. *)
Lemma SFdiv_by_multiple (sa st : bool) (a t : positive) (k : Z) :
  0 <= k <= 60 -> Z.pos t = Z.pos a * 2 ^ k ->
  SFdiv prec emax (S754_finite sa a 0) (S754_finite st t 0)
  = S754_finite (xorb sa st) 4503599627370496 (- k - 52).
Proof.
  intros Hk Ht. rewrite SFdiv_integers.
  assert (He : div_exp a t = - k - 53).
  { unfold div_exp. rewrite Ht, Zdigits2_mul_pow2 by lia.
    unfold fexp, SpecFloat.emin, prec, emax. lia. }
  rewrite He. replace (- (- k - 53)) with (53 + k) by lia.
  pow2_pos k as Hp.
  assert (HP : Z.pos a * 2 ^ (53 + k) = 2 ^ 53 * Z.pos t)
    by (rewrite Ht, Z.pow_add_r by lia; ring).
  rewrite HP, Z.div_mul, Z.mod_mul by lia.
  destruct (binary_round_aux_normal (2 ^ 53 * Z.pos t) (Z.pos t) (xorb sa st)
              (2 ^ 53) (- k - 53) (new_location (Z.pos t) 0))
    as (m & e & Hr & He3 & Hm2 & Hm).
  { replace (2 ^ 53) with (2 ^ 53 * Z.pos t / Z.pos t) at 2
      by (rewrite Z.div_mul; lia).
    replace 0 with (2 ^ 53 * Z.pos t mod Z.pos t) by (rewrite Z.mod_mul; lia).
    apply new_location_located; lia. }
  { simpl. lia. }
  { simpl Zdigits2. lia. }
  change (Zdigits2 (2 ^ 53) - 53) with 1 in He3, Hm2.
  rewrite (rne_unique _ _ (2 ^ 52)) in Hm2.
  2: lia.
  2: { replace (2 ^ 53 * Z.pos t - 2 ^ 52 * (Z.pos t * 2 ^ 1)) with 0 by (simpl; lia).
       simpl. lia. }
  rewrite Hr.
  assert (Hke : e = - k - 53 + 1).
  { destruct (Z.eq_dec e (- k - 53 + 1)) as [|Hne]; [assumption|exfalso].
    replace (e - (- k - 53 + 1)) with 1 in Hm2 by lia. simpl in Hm2, Hm. lia. }
  subst e. rewrite Z.sub_diag in Hm2. simpl in Hm2.
  f_equal; [|lia]. lia.
Qed.

Lemma rne_ge (P D K : Z) : 0 < D -> K * D <= P -> K <= rne P D.
Proof.
  intros HD HK. unfold rne.
  assert (Hq : K <= P / D) by (apply Z.div_le_lower_bound; lia).
  repeat match goal with |- context [if ?b then _ else _] => destruct b end; lia.
Qed.

Lemma finish_at_most_half (K m2 e1 : Z) :
  0 < K < 2 ^ 53 -> 0 <= m2 -> e1 < 0 -> m2 <= K * 2 ^ (- e1 - 1) ->
  at_most_half_of K (finish false m2 e1).
Proof.
  intros HK Hm2 He1 Hle. unfold finish.
  set (n2 := Z.max (fexp prec emax (Zdigits2 m2 + e1) - e1) 0).
  pow2_pos (- e1 - 1) as Hp1.
  assert (Hd : Zdigits2 m2 + e1 <= 52).
  { assert (Zdigits2 m2 <= 52 - e1); [|lia].
    apply Zdigits2_le; [lia|]. split; [lia|].
    replace (52 - e1) with (53 + (- e1 - 1)) by lia. rewrite Z.pow_add_r by lia.
    assert (K * 2 ^ (- e1 - 1) < 2 ^ 53 * 2 ^ (- e1 - 1))
      by (apply Z.mul_lt_mono_pos_r; lia).
    lia. }
  assert (Hf : fexp prec emax (Zdigits2 m2 + e1) <= -1)
    by (unfold fexp, SpecFloat.emin, prec, emax; lia).
  assert (Hn2 : 0 <= n2 /\ e1 + n2 < 0) by (unfold n2; lia).
  pow2_pos n2 as Hp.
  assert (Hq : 0 <= m2 / 2 ^ n2 <= K * 2 ^ (- (e1 + n2) - 1)).
  { split; [apply Z.div_pos; lia|].
    apply Z.div_le_upper_bound; [lia|].
    replace (- e1 - 1) with (n2 + (- (e1 + n2) - 1)) in Hle by lia.
    rewrite Z.pow_add_r in Hle by lia. lia. }
  destruct (m2 / 2 ^ n2) as [|m|m]; simpl; try lia.
  destruct (Z.leb_spec (e1 + n2) (emax - prec)) as [_|Hov]; simpl.
  - split; lia.
  - unfold emax, prec in Hov. lia.
Qed.

Lemma round_at_most_half (K P D mx ex : Z) (lx : location) :
  0 < K < 2 ^ 53 ->
  located P D (shr_record_of_loc mx lx) ->
  ex < 0 -> P <= K * D * 2 ^ (- ex - 1) ->
  at_most_half_of K (binary_round_aux prec emax false mx ex lx).
Proof.
  intros HK Hloc Hex Hle.
  rewrite (binary_round_aux_located P D _ _ _ _ Hloc).
  set (n := Z.max (fexp prec emax (Zdigits2 mx + ex) - ex) 0).
  destruct Hloc as (HD & HP & Hm & _).
  assert (Hmx : mx = P / D) by (destruct lx as [|[]]; exact Hm).
  pow2_pos (- ex - 1) as Hpe.
  assert (Hmxb : 0 <= mx <= K * 2 ^ (- ex - 1)).
  { subst mx. split; [apply Z.div_pos; lia|].
    apply Z.div_le_upper_bound; lia. }
  assert (Hd : Zdigits2 mx + ex <= 52).
  { assert (Zdigits2 mx <= 52 - ex); [|lia].
    apply Zdigits2_le; [lia|]. split; [lia|].
    replace (52 - ex) with (53 + (- ex - 1)) by lia. rewrite Z.pow_add_r by lia.
    assert (K * 2 ^ (- ex - 1) < 2 ^ 53 * 2 ^ (- ex - 1))
      by (apply Z.mul_lt_mono_pos_r; lia).
    lia. }
  assert (Hf : fexp prec emax (Zdigits2 mx + ex) <= -1)
    by (unfold fexp, SpecFloat.emin, prec, emax; lia).
  assert (Hn : 0 <= n /\ ex + n < 0) by (unfold n; lia).
  pow2_pos n as Hpn.
  assert (Hsplit : 2 ^ (- ex - 1) = 2 ^ (- (ex + n) - 1) * 2 ^ n).
  { rewrite <- Z.pow_add_r by lia. f_equal. lia. }
  apply finish_at_most_half; try lia.
  - pose proof (rne_bounds P (D * 2 ^ n) ltac:(nia) HP).
    pose proof (Z.div_pos P (D * 2 ^ n) HP ltac:(nia)). lia.
  - apply rne_le; [nia|lia|].
    rewrite Hsplit in Hle. lia.
Qed.

Lemma div_exp_le (a t : positive) :
  Z.pos a <= Z.pos t -> div_exp a t <= -53.
Proof.
  intros Hat. unfold div_exp.
  pose proof (Zdigits2_nonneg_bounds (Z.pos a) ltac:(lia)) as [Hlo _].
  pose proof (Zdigits2_nonneg_bounds (Z.pos t) ltac:(lia)) as [_ Hhi].
  pose proof (Zdigits2_pos (Z.pos a) ltac:(lia)).
  pose proof (Zdigits2_pos (Z.pos t) ltac:(lia)).
  assert (Zdigits2 (Z.pos a) - 1 < Zdigits2 (Z.pos t))
    by (apply (Z.pow_lt_mono_r_iff 2); lia).
  unfold fexp, SpecFloat.emin, prec, emax. lia.
Qed.

Lemma SFdiv_at_most_half (a t : positive) :
  2 * Z.pos a <= Z.pos t ->
  at_most_half_of 1 (SFdiv prec emax (S754_finite false a 0) (S754_finite false t 0)).
Proof.
  intros Hat. rewrite SFdiv_integers. simpl xorb.
  pose proof (div_exp_le a t ltac:(lia)) as He.
  pow2_pos (- div_exp a t - 1) as Hp.
  assert (Hs : 2 ^ (- div_exp a t) = 2 * 2 ^ (- div_exp a t - 1)).
  { replace (- div_exp a t) with (1 + (- div_exp a t - 1)) at 1 by lia.
    rewrite Z.pow_add_r by lia. reflexivity. }
  apply round_at_most_half with (P := Z.pos a * 2 ^ (- div_exp a t)) (D := Z.pos t).
  - lia.
  - apply new_location_located; lia.
  - lia.
  - rewrite Hs. nia.
Qed.

Lemma SFmul_100_at_most_half (x : spec_float) :
  at_most_half_of 1 x -> at_most_half_of 100 (SFmul prec emax x hundred).
Proof.
  destruct x as [s|s| |[] m e]; simpl; try tauto.
  intros [He Hm].
  apply round_at_most_half with (P := Z.pos (m * 7036874417766400)) (D := 1).
  - lia.
  - apply located_exact. lia.
  - lia.
  - replace (- (e + -46) - 1) with (- e - 1 + 46) by lia.
    rewrite Z.pow_add_r by lia. rewrite Pos2Z.inj_mul.
    change (2 ^ 46) with 70368744177664. lia.
Qed.

Lemma py_round_at_most_half (x : spec_float) :
  at_most_half_of 100 x -> exists r, py_round x = Ok r /\ 0 <= r <= 50.
Proof.
  destruct x as [s|s| |[] m e]; simpl; try tauto.
  - intros _. exists 0. split; [reflexivity|lia].
  - intros [He Hm]. eexists. split; [reflexivity|].
    destruct (Z.leb_spec 0 e); [lia|].
    pow2_pos (- e) as Hp. pow2_pos (- e - 1) as Hp1.
    assert (Hs : 2 ^ (- e) = 2 * 2 ^ (- e - 1)).
    { replace (- e) with (1 + (- e - 1)) at 1 by lia.
      rewrite Z.pow_add_r by lia. reflexivity. }
    split.
    + pose proof (rne_bounds (Z.pos m) (2 ^ (- e)) Hp ltac:(lia)).
      pose proof (Z.div_pos (Z.pos m) (2 ^ (- e)) ltac:(lia) Hp). lia.
    + apply rne_le; lia.
Qed.

(** A part that is at most half of the total gets at most 50. *)
Lemma share_at_most_half (part total : Z) :
  0 <= part -> 2 * part <= total -> 0 < total ->
  exists r, share part total = Ok r /\ 0 <= r <= 50.
Proof.
  intros H0 Hle Ht. unfold share, int_truediv.
  destruct (Z.eqb_spec total 0) as [|_]; [lia|].
  assert (Hq : at_most_half_of 1 (SFdiv prec emax (Z2SF part) (Z2SF total))).
  { destruct total as [|t|t]; try lia.
    destruct part as [|a|a]; try lia; simpl Z2SF.
    - exact I.
    - apply SFdiv_at_most_half. exact Hle. }
  destruct (SFdiv prec emax (Z2SF part) (Z2SF total)) as [s|s| |s m e] eqn:Eq;
    simpl in Hq; try tauto; unfold mbind, result_bind, float_mul_int;
    rewrite float_of_int_100;
    apply py_round_at_most_half; apply SFmul_100_at_most_half; simpl; exact Hq.
Qed.

(** The quotient of a part by a total of at most twice the part is a
    normal number between one half and one. *)
Lemma SFdiv_at_least_half (a t : positive) :
  Z.pos a <= Z.pos t <= 2 * Z.pos a ->
  exists m e,
    SFdiv prec emax (S754_finite false a 0) (S754_finite false t 0)
    = S754_finite false m e /\
    2 ^ 52 <= Z.pos m < 2 ^ 53 /\ -54 <= e <= -52 /\ 2 ^ (- e) <= 2 * Z.pos m.
Proof.
  intros [Hat Hta]. rewrite SFdiv_integers. simpl xorb.
  pose proof (Zdigits2_nonneg_bounds (Z.pos a) ltac:(lia)) as [Halo Hahi].
  pose proof (Zdigits2_nonneg_bounds (Z.pos t) ltac:(lia)) as [Htlo Hthi].
  pose proof (Zdigits2_pos (Z.pos a) ltac:(lia)) as Hda.
  pose proof (Zdigits2_pos (Z.pos t) ltac:(lia)) as Hdt.
  set (da := Zdigits2 (Z.pos a)) in *. set (dt := Zdigits2 (Z.pos t)) in *.
  assert (Hc1 : da - 1 < dt) by (apply (Z.pow_lt_mono_r_iff 2); lia).
  assert (Hc2 : dt - 1 < da + 1).
  { apply (Z.pow_lt_mono_r_iff 2); [lia|lia|].
    rewrite Z.pow_add_r by lia. lia. }
  assert (He : div_exp a t = da - dt - 53).
  { unfold div_exp. fold da dt. unfold fexp, SpecFloat.emin, prec, emax. lia. }
  rewrite He. set (c := dt - da) in *.
  replace (- (da - dt - 53)) with (53 + c) by (unfold c; lia).
  replace (da - dt - 53) with (- c - 53) by (unfold c; lia).
  set (P := Z.pos a * 2 ^ (53 + c)).
  assert (Htc : Z.pos a * 2 ^ c < 2 * Z.pos t).
  { assert (Hc : c = 0 \/ c = 1) by (unfold c; lia).
    destruct Hc as [-> | Hc]; [lia|]. rewrite Hc.
    replace dt with (da + 1) in Htlo by (unfold c in Hc; lia).
    replace (da + 1 - 1) with da in Htlo by lia. lia. }
  pow2_pos c as Hpc.
  assert (HP : P = 2 ^ 53 * (Z.pos a * 2 ^ c))
    by (unfold P; rewrite Z.pow_add_r by lia; ring).
  assert (Hq : 2 ^ 52 <= P / Z.pos t < 2 ^ 54).
  { split.
    - apply Z.div_le_lower_bound; [lia|]. rewrite HP. nia.
    - apply Z.div_lt_upper_bound; [lia|]. rewrite HP. nia. }
  pose proof (Zdigits2_gt (P / Z.pos t) 52 ltac:(lia) ltac:(lia)) as Hdq.
  pose proof (Zdigits2_le (P / Z.pos t) 54 ltac:(lia) ltac:(lia)) as Hdq'.
  destruct (binary_round_aux_normal P (Z.pos t) false (P / Z.pos t) (- c - 53)
              (new_location (Z.pos t) (P mod Z.pos t)))
    as (m & e & Hr & He3 & Hm2 & Hm); try lia.
  { apply new_location_located; lia. }
  set (n := Zdigits2 (P / Z.pos t) - 53) in *.
  exists m, e. split; [exact Hr|]. split; [exact Hm|].
  pow2_pos n as Hpn.
  assert (Hlo : 2 ^ (c + 52 - n) <= rne P (Z.pos t * 2 ^ n)).
  { apply rne_ge; [lia|].
    replace (2 ^ (c + 52 - n) * (Z.pos t * 2 ^ n))
      with (Z.pos t * (2 ^ (c + 52 - n) * 2 ^ n)) by ring.
    rewrite <- Z.pow_add_r by lia.
    replace (c + 52 - n + n) with (52 + c) by lia.
    rewrite HP, Z.pow_add_r by lia. nia. }
  assert (Hhi : rne P (Z.pos t * 2 ^ n) <= 2 ^ (c + 53 - n)).
  { apply rne_le; [lia|unfold P; lia|].
    replace (2 ^ (c + 53 - n) * (Z.pos t * 2 ^ n))
      with (Z.pos t * (2 ^ (c + 53 - n) * 2 ^ n)) by ring.
    rewrite <- Z.pow_add_r by lia.
    replace (c + 53 - n + n) with (53 + c) by lia.
    rewrite HP, Z.pow_add_r by lia. nia. }
  rewrite <- Hm2 in Hlo, Hhi.
  assert (Hc : c = 0 \/ c = 1) by (unfold c; lia).
  assert (Hn : n = 0 \/ n = 1) by lia.
  assert (Hk : e = - c - 53 + n \/ e = - c - 53 + n + 1) by lia.
  destruct Hc as [Hc|Hc], Hn as [Hn|Hn], Hk as [Hk|Hk];
    rewrite Hc, Hn in *; rewrite Hk in *; simpl in Hlo, Hhi |- *; lia.
Qed.

Lemma SFmul_100_at_least_half (m : positive) (e : Z) :
  2 ^ 52 <= Z.pos m < 2 ^ 53 -> -54 <= e <= -52 -> 2 ^ (- e) <= 2 * Z.pos m ->
  exists m' e',
    SFmul prec emax (S754_finite false m e) hundred = S754_finite false m' e' /\
    e' < 0 /\ 50 * 2 ^ (- e') <= Z.pos m'.
Proof.
  intros Hm He Hhalf. unfold hundred, SFmul. simpl xorb.
  rewrite Pos2Z.inj_mul.
  set (Pm := Z.pos m * Z.pos 7036874417766400).
  assert (HPm : 2 ^ 104 <= Pm < 2 ^ 106) by (unfold Pm; lia).
  pose proof (Zdigits2_gt Pm 104 ltac:(lia) ltac:(lia)) as Hd.
  pose proof (Zdigits2_le Pm 106 ltac:(lia) ltac:(lia)) as Hd'.
  destruct (binary_round_aux_normal Pm 1 false Pm (e + -46) loc_Exact)
    as (m' & e' & Hr & He' & Hm2 & Hm'); try lia.
  { apply located_exact. lia. }
  set (n := Zdigits2 Pm - 53) in *.
  exists m', e'. split; [exact Hr|]. split; [lia|].
  pow2_pos n as Hpn. pow2_pos (- e) as Hpe.
  assert (Hlo : 50 * 2 ^ (46 - e - n) <= rne Pm (1 * 2 ^ n)).
  { apply rne_ge; [lia|].
    replace (50 * 2 ^ (46 - e - n) * (1 * 2 ^ n))
      with (50 * (2 ^ (46 - e - n) * 2 ^ n)) by ring.
    rewrite <- Z.pow_add_r by lia.
    replace (46 - e - n + n) with (46 + - e) by lia.
    rewrite Z.pow_add_r by lia. unfold Pm.
    change (2 ^ 46) with 70368744177664. lia. }
  rewrite <- Hm2 in Hlo.
  set (k := e' - (e + -46 + n)) in *.
  assert (Hk : 0 <= k) by (unfold k; lia).
  pow2_pos k as Hpk. pow2_pos (- e') as Hpe'.
  assert (Hs : 2 ^ (46 - e - n) = 2 ^ (- e') * 2 ^ k).
  { rewrite <- Z.pow_add_r by lia. f_equal. unfold k. lia. }
  rewrite Hs in Hlo. nia.
Qed.

(** A part that is at least half of the total gets at least 50. *)
Lemma share_at_least_half (part total : Z) :
  0 < part <= total -> total <= 2 * part ->
  exists r, share part total = Ok r /\ 50 <= r <= 100.
Proof.
  intros [H0 Hle] Hge.
  destruct (share_range part total ltac:(lia) ltac:(lia)) as (r & Hr & Hr100).
  exists r. split; [exact Hr|]. split; [|lia].
  revert Hr. unfold share, int_truediv.
  destruct (Z.eqb_spec total 0) as [|_]; [lia|].
  destruct total as [|t|t]; try lia. destruct part as [|a|a]; try lia.
  simpl Z2SF.
  destruct (SFdiv_at_least_half a t ltac:(lia)) as (m & e & -> & Hm & He & Hh).
  unfold float_mul_int. rewrite float_of_int_100.
  unfold mbind, result_bind. cbv iota beta.
  destruct (SFmul_100_at_least_half m e Hm He Hh) as (m' & e' & -> & He' & Hm').
  unfold py_round. destruct (Z.leb_spec 0 e'); [lia|].
  intros [= <-]. simpl cond_Zopp. apply rne_ge; [|lia].
  apply Z.pow_pos_nonneg; lia.
Qed.

Lemma share_whole (n : Z) : n <> 0 -> share n n = Ok 100.
Proof.
  intros Hn. unfold share, int_truediv.
  destruct (Z.eqb_spec n 0) as [|_]; [contradiction|].
  destruct n as [|p|p]; [contradiction| |]; simpl Z2SF;
    rewrite (SFdiv_by_multiple _ _ p p 0) by (simpl; lia); reflexivity.
Qed.

Lemma share_half (n : Z) : n <> 0 -> share n (n + n) = Ok 50.
Proof.
  intros Hn. unfold share, int_truediv.
  destruct (Z.eqb_spec (n + n) 0) as [|_]; [lia|].
  destruct n as [|p|p]; [contradiction| |].
  - replace (Z.pos p + Z.pos p) with (Z.pos p~0) by lia. simpl Z2SF.
    rewrite (SFdiv_by_multiple _ _ p p~0 1) by (simpl; lia). reflexivity.
  - replace (Z.neg p + Z.neg p) with (Z.neg p~0) by lia. simpl Z2SF.
    rewrite (SFdiv_by_multiple _ _ p p~0 1) by (simpl; lia). reflexivity.
Qed.

Lemma share_nothing (total : Z) : total <> 0 -> share 0 total = Ok 0.
Proof.
  intros Ht. unfold share, int_truediv.
  destruct (Z.eqb_spec total 0) as [|_]; [contradiction|].
  destruct total as [|t|t]; [contradiction| |]; reflexivity.
Qed.

Lemma strip_method_str (d : gmap str json) (k : str) (s : str) :
  strip_method (field d k (JStr [])) = Ok s ->
  match d !! k with
  | Some v => exists s', v = JStr s'
  | None => True%type
  end.
Proof.
  unfold field. destruct (d !! k) as [v|]; simpl; [|trivial].
  destruct v; try discriminate. eauto.
Qed.

(** Where a [Judgment] is made, the texts of the reply are strings. *)
Lemma judgment_of_data_texts (E : env) (d : gmap str json) (j : Judgment) :
  judgment_of_data E (JDict d) = Ok j -> texts_are_str d.
Proof.
  intros H.
  apply judgment_of_data_Ok in H
    as (a & b & _ & _ & _ & H1 & H2 & H3 & H4 & _ & H5).
  intros k f Hin. simpl in Hin.
  destruct Hin as [[= <- _]|[[= <- _]|[[= <- _]|[[= <- _]|[[= <- _]|[]]]]]];
    eapply strip_method_str; eassumption.
Qed.

Lemma get_judgment_mock_share (story_a story_b tone : str) (j : Judgment) :
  get_judgment_mock story_a story_b tone = Ok j ->
  share (len story_a) (Z.max (len story_a + len story_b) 1)
  = Ok (a_responsibility j) /\
  b_responsibility j = 100 - a_responsibility j.
Proof.
  destruct (get_judgment_mock_Ok story_a story_b tone) as (a & Ha & _ & ->).
  intros [= <-]. simpl. auto.
Qed.

(** X14. The fallback gives the longer story at least half of the
    responsibility and the shorter one at most half: with stories of the
    same length, not empty, it is 50 and 50. *)
Theorem longer_story_larger_share (story_a story_b tone : str) :
  exists j,
    get_judgment_mock story_a story_b tone = Ok j /\
    (len story_b <= len story_a -> story_a <> [] ->
     b_responsibility j <= 50 <= a_responsibility j) /\
    (len story_a <= len story_b ->
     a_responsibility j <= 50 <= b_responsibility j).
Proof.
  destruct (get_judgment_mock_Ok story_a story_b tone) as (r & Hr & _ & Hj).
  eexists. split; [exact Hj|]. simpl.
  pose proof (len_nonneg story_a) as Ha. pose proof (len_nonneg story_b) as Hb.
  split.
  - intros Hle Hne.
    assert (0 < len story_a) by (destruct story_a; [contradiction|unfold len; simpl; lia]).
    destruct (share_at_least_half (len story_a) (Z.max (len story_a + len story_b) 1))
      as (r' & Hr' & Hge); [lia|lia|].
    rewrite Hr in Hr'. injection Hr' as <-. lia.
  - intros Hle.
    destruct (share_at_most_half (len story_a) (Z.max (len story_a + len story_b) 1))
      as (r' & Hr' & Hge); [lia|lia|lia|].
    rewrite Hr in Hr'. injection Hr' as <-. lia.
Qed.

(** X15. When only one of the two wrote something, the fallback puts the
    whole responsibility on one side: 0 and 100 when the first story is
    empty, 100 and 0 when only the second is. *)
Theorem one_sided_stories (story_a story_b tone : str) :
  exists j,
    get_judgment_mock story_a story_b tone = Ok j /\
    (story_a = [] -> a_responsibility j = 0 /\ b_responsibility j = 100) /\
    (story_b = [] -> story_a <> [] ->
     a_responsibility j = 100 /\ b_responsibility j = 0).
Proof.
  destruct (get_judgment_mock_Ok story_a story_b tone) as (r & Hr & _ & Hj).
  eexists. split; [exact Hj|]. simpl.
  pose proof (len_nonneg story_b) as Hb.
  split.
  - intros ->. change (len []) with 0 in Hr.
    rewrite share_nothing in Hr by lia. injection Hr as <-. lia.
  - intros -> Hne.
    assert (0 < len story_a) by (destruct story_a; [contradiction|unfold len; simpl; lia]).
    change (len []) with 0 in Hr.
    replace (Z.max (len story_a + 0) 1) with (len story_a) in Hr by lia.
    rewrite share_whole in Hr by lia. injection Hr as <-. lia.
Qed.

(** X16. The normalization on the edges, for integers of any size and
    sign: a zero first field gives 0 and 100; with a first field that is
    not zero, a zero second field gives 100 and 0, and a second field
    equal to the first 50 and 50. *)
Theorem normalization_edges (a b : Z) :
  normalize 0 b = Ok (0, 100) /\
  (a <> 0 -> normalize a 0 = Ok (100, 0)) /\
  (a <> 0 -> normalize a a = Ok (50, 50)).
Proof.
  unfold normalize. split; [|split].
  - rewrite share_nothing; [reflexivity|].
    destruct (Z.eqb_spec (0 + b) 0); lia.
  - intros Ha. rewrite Z.add_0_r.
    destruct (Z.eqb_spec a 0) as [|_]; [contradiction|].
    rewrite share_whole by exact Ha. reflexivity.
  - intros Ha. destruct (Z.eqb_spec (a + a) 0) as [|_]; [lia|].
    rewrite share_half by exact Ha. reflexivity.
Qed.

(** X17. The normalization keeps the order of two responsibilities that
    are not negative: the larger one of the reply is at least 50 in the
    [Judgment], the smaller one at most 50. *)
Theorem normalization_keeps_order (E : env) (d : gmap str json) (a b : Z)
    (j : Judgment) :
  field d k_a_responsibility (JInt 50) = JInt a ->
  field d k_b_responsibility (JInt 50) = JInt b ->
  0 <= a -> 0 <= b ->
  judgment_of_data E (JDict d) = Ok j ->
  (b <= a -> 0 < a -> b_responsibility j <= 50 <= a_responsibility j) /\
  (a <= b -> a_responsibility j <= 50 <= b_responsibility j).
Proof.
  intros Ha Hb Ha0 Hb0 H.
  pose proof (judgment_of_data_int_fields E d a b j Ha Hb H) as Hn.
  apply normalize_Ok in Hn as [Hs Hb'].
  split.
  - intros Hle Hpos.
    destruct (Z.eqb_spec (a + b) 0) as [|_]; [lia|].
    destruct (share_at_least_half a (a + b)) as (r & Hr & Hge); [lia|lia|].
    rewrite Hs in Hr. injection Hr as <-. lia.
  - intros Hle.
    destruct (share_at_most_half a (if a + b =? 0 then 1 else a + b))
      as (r & Hr & Hge); [lia| | |].
    + destruct (Z.eqb_spec (a + b) 0); lia.
    + destruct (Z.eqb_spec (a + b) 0); lia.
    + rewrite Hs in Hr. injection Hr as <-. lia.
Qed.

(** A reply with 70 and 20. *)
Lemma normalization_keeps_order_witness :
  exists j, judgment_of_data offline (JDict (reply_of 70 20)) = Ok j /\
            b_responsibility j <= 50 <= a_responsibility j.
Proof.
  eexists. split; [vm_compute; reflexivity|].
  eapply (proj1 (normalization_keeps_order offline (reply_of 70 20) 70 20 _
                   eq_refl eq_refl ltac:(lia) ltac:(lia) ltac:(vm_compute; reflexivity)));
    lia.
Defined.

(** X18. A reply that cannot be used is given up: [get_judgment] sends
    its one request, prints the reply and the failure, and returns what
    the fallback returns. *)
Theorem unusable_reply_falls_back (E : env) (story_a story_b tone : str)
    (t : trace) (raw_text : str) (data : json) :
  let r := {| req_story_a := story_a; req_story_b := story_b; req_tone := tone |} in
  chat_create E r (requests_sent t) ≫= first_content = Ok raw_text ->
  json_loads E raw_text = Ok data ->
  unusable data ->
  exists e,
    get_judgment E story_a story_b tone t =
    (get_judgment_mock story_a story_b tone,
     t ++ [SentRequest r; PrintedRaw raw_text; PrintedFailure e]).
Proof.
  intros r Hreply Hloads Hbad.
  unfold get_judgment, try_except. rewrite get_judgment_llm_run. fold r.
  rewrite Hreply, Hloads. simpl.
  destruct (judgment_of_data E data) as [j|e] eqn:Hj.
  - exfalso. destruct (judgment_of_data_dict E data j Hj) as [d ->].
    apply Hbad. exact (judgment_of_data_texts E d j Hj).
  - exists e. unfold mbind, M_bind, emit, lift. simpl.
    rewrite <- !app_assoc. reflexivity.
Qed.

(** A reply whose advice for the first person is null. *)
Lemma unusable_reply_falls_back_witness :
  let data := JDict (<[k_advice_a := JNull]> (reply_of 40 60)) in
  exists e,
    get_judgment (answering (lit "{}") data) scenario_story_a scenario_story_b
      tone_gentle [] =
    (get_judgment_mock scenario_story_a scenario_story_b tone_gentle,
     [SentRequest {| req_story_a := scenario_story_a;
                     req_story_b := scenario_story_b;
                     req_tone := tone_gentle |};
      PrintedRaw (lit "{}"); PrintedFailure e]).
Proof.
  intros data.
  apply (unusable_reply_falls_back (answering (lit "{}") data)
           scenario_story_a scenario_story_b tone_gentle [] (lit "{}") data
           eq_refl eq_refl).
  intros Htexts.
  pose proof (Htexts k_advice_a advice_a ltac:(simpl; auto)) as Hadv.
  unfold data in Hadv. rewrite lookup_insert_eq in Hadv.
  destruct Hadv as [s Hs]. discriminate Hs.
Defined.
